(** * july: calendar heatmap layout (src/july/helpers.py)

    A shallow embedding of [date_grid], [add_date_label], [add_month_label]
    and [add_year_label], together with the parts of the Python standard
    library ([datetime.date.isocalendar], [sorted], [set], [dict], [str]) and
    of numpy (array construction, slicing, integer-array assignment,
    transposition, [nonzero], [max]/[min]) that these functions call. *)

From Stdlib Require Import ZArith QArith Lia Ascii.
From stdpp Require Import base decidable option numbers list list_numbers
  sorting strings pretty countable gmap.

Open Scope Z_scope.

(** ** Exceptions and fallible results *)

Inductive exn := IndexError | ValueError | TypeError | KeyError.

Inductive result (A : Type) :=
  | Ok (a : A)
  | Raise (e : exn).
Arguments Ok {A} a.
Arguments Raise {A} e.

#[global] Instance exn_eq_dec : EqDecision exn.
Proof. solve_decision. Defined.

#[global] Instance result_ret : MRet result := λ A, Ok.
#[global] Instance result_bind : MBind result := λ A B f m,
  match m with Ok a => f a | Raise e => Raise e end.
#[global] Instance result_fmap : FMap result := λ A B f m,
  match m with Ok a => Ok (f a) | Raise e => Raise e end.

(** [for x in l: s = body(s, x)], stopping at the first exception. *)
Fixpoint for_each {A S} (l : list A) (s : S) (body : S → A → result S)
    : result S :=
  match l with
  | [] => Ok s
  | x :: l => s' ← body s x; for_each l s' body
  end.

(** [try: body except ValueError: handler]. Other exceptions propagate. *)
Definition try_except_ValueError {A} (body handler : result A) : result A :=
  match body with
  | Raise ValueError => handler
  | r => r
  end.

(** ** datetime.date

    [date] objects as the standard library has them; the constructor of
    [datetime.date] only builds values that satisfy [valid_date]. The
    ordinal and ISO week helpers follow the reference implementation of the
    [datetime] module line by line. *)

Record date := mkdate { year : Z; month : Z; day : Z }.

#[global] Instance date_eq_dec : EqDecision date.
Proof. solve_decision. Defined.

Definition is_leap (y : Z) : bool :=
  (y mod 4 =? 0) && (negb (y mod 100 =? 0) || (y mod 400 =? 0)).

Definition DAYS_IN_MONTH (m : Z) : Z :=
  match m with
  | 1 => 31 | 2 => 28 | 3 => 31 | 4 => 30 | 5 => 31 | 6 => 30
  | 7 => 31 | 8 => 31 | 9 => 30 | 10 => 31 | 11 => 30 | 12 => 31
  | _ => -1
  end.

Definition DAYS_BEFORE_MONTH (m : Z) : Z :=
  match m with
  | 1 => 0 | 2 => 31 | 3 => 59 | 4 => 90 | 5 => 120 | 6 => 151
  | 7 => 181 | 8 => 212 | 9 => 243 | 10 => 273 | 11 => 304 | 12 => 334
  | _ => -1
  end.

Definition days_before_year (y : Z) : Z :=
  let y := y - 1 in y * 365 + y / 4 - y / 100 + y / 400.

Definition year_length (y : Z) : Z := if is_leap y then 366 else 365.

Definition days_in_month (y m : Z) : Z :=
  if (m =? 2) && is_leap y then 29 else DAYS_IN_MONTH m.

Definition days_before_month (y m : Z) : Z :=
  DAYS_BEFORE_MONTH m + (if (2 <? m) && is_leap y then 1 else 0).

Definition valid_date (d : date) : Prop :=
  1 ≤ year d ≤ 9999 ∧ 1 ≤ month d ≤ 12 ∧
  1 ≤ day d ≤ days_in_month (year d) (month d).

#[global] Instance valid_date_dec d : Decision (valid_date d).
Proof. unfold valid_date. apply _. Defined.

(** Proleptic Gregorian ordinal; 0001-01-01 is day 1. *)
Definition ymd2ord (y m d : Z) : Z :=
  days_before_year y + days_before_month y m + d.

(** Ordinal of the Monday that starts ISO week 1 of year [y]. *)
Definition isoweek1monday (y : Z) : Z :=
  let THURSDAY := 3 in
  let firstday := ymd2ord y 1 1 in
  let firstweekday := (firstday + 6) mod 7 in
  let week1monday := firstday - firstweekday in
  if THURSDAY <? firstweekday then week1monday + 7 else week1monday.

(** [day.isocalendar()]: (ISO year, ISO week number, ISO weekday). *)
Definition isocalendar (d : date) : Z * Z * Z :=
  let y := year d in
  let week1monday := isoweek1monday y in
  let today := ymd2ord (year d) (month d) (day d) in
  let week := (today - week1monday) / 7 in
  let wday := (today - week1monday) mod 7 in
  if week <? 0 then
    let y := y - 1 in
    let week1monday := isoweek1monday y in
    let week := (today - week1monday) / 7 in
    let wday := (today - week1monday) mod 7 in
    (y, week + 1, wday + 1)
  else if (52 <=? week) && (isoweek1monday (y + 1) <=? today) then
    (y + 1, 0 + 1, wday + 1)
  else
    (y, week + 1, wday + 1).

Definition iso_week (d : date) : Z * Z := (isocalendar d).1.
Definition iso_weekday (d : date) : Z := (isocalendar d).2.

(** ** Built-ins: tuple ordering, sorted(set(..)), dict, str *)

(** Python compares tuples lexicographically. *)
Definition tuple_le (a b : Z * Z) : Prop :=
  a.1 < b.1 ∨ (a.1 = b.1 ∧ a.2 ≤ b.2).
Definition tuple_lt (a b : Z * Z) : Prop :=
  a.1 < b.1 ∨ (a.1 = b.1 ∧ a.2 < b.2).

#[global] Instance tuple_le_dec : RelDecision tuple_le.
Proof. intros a b. unfold tuple_le. apply _. Defined.
#[global] Instance tuple_lt_dec : RelDecision tuple_lt.
Proof. intros a b. unfold tuple_lt. apply _. Defined.

(** [sorted(set(l))] for a list of int pairs, and for a list of ints. *)
Definition sorted_set_tuples (l : list (Z * Z)) : list (Z * Z) :=
  merge_sort tuple_le (elements (list_to_set l : gset (Z * Z))).
Definition sorted_set_ints (l : list Z) : list Z :=
  merge_sort Z.le (elements (list_to_set l : gset Z)).

(** [{k: i for i, k in enumerate(l)}]: later entries overwrite earlier
    ones. *)
Definition dict_of_enumerate `{Countable K} (l : list K) : gmap K nat :=
  foldl (λ m ik, <[ik.2 := ik.1]> m) ∅ (imap pair l).

(** [d[k]], raising [KeyError] for an absent key. *)
Definition dict_getitem `{Countable K} {V} (d : gmap K V) (k : K) : result V :=
  match d !! k with
  | Some v => Ok v
  | None => Raise KeyError
  end.

(** An insertion-ordered dict as a list of entries; [d[k] = v]. *)
Fixpoint odict_set {K V} `{EqDecision K} (k : K) (v : V) (d : list (K * V))
    : list (K * V) :=
  match d with
  | [] => [(k, v)]
  | (k', v') :: d =>
      if decide (k = k') then (k, v) :: d else (k', v') :: odict_set k v d
  end.

Definition odict_get {K V} `{EqDecision K} (d : list (K * V)) (k : K)
    : option V :=
  (λ r, r.2.2) <$> list_find (λ kv, kv.1 = k) d.

(** [str((y, m))] on a tuple of two ints. *)
Definition str_tuple (p : Z * Z) : string :=
  "(" +:+ pretty p.1 +:+ ", " +:+ pretty p.2 +:+ ")".

(** [calendar.month_abbr[m]] in the C locale. *)
Definition month_abbr (m : Z) : string :=
  match m with
  | 1 => "Jan" | 2 => "Feb" | 3 => "Mar" | 4 => "Apr" | 5 => "May"
  | 6 => "Jun" | 7 => "Jul" | 8 => "Aug" | 9 => "Sep" | 10 => "Oct"
  | 11 => "Nov" | 12 => "Dec" | _ => ""
  end%string.

(** ** numpy arrays

    A two-dimensional array carries its shape and its rows. Cells of the
    grids built here are [NaN] (float64 not-a-number), [PyNone] (the filling
    of a fresh object array), [Uninit] (a float64 cell of [np.empty] before
    anything is written to it) or a stored value. The stored values are
    taken as they are after conversion to the array's dtype. *)

(** The two dtypes the module passes to [date_grid]: the default and the one
    [add_month_label] asks for. *)
Inductive dtype := float64 | object.

#[global] Instance dtype_eq_dec : EqDecision dtype.
Proof. solve_decision. Defined.

Inductive cell (V : Type) :=
  | NaN
  | PyNone
  | Uninit
  | Val (v : V).
Arguments NaN {V}.
Arguments PyNone {V}.
Arguments Uninit {V}.
Arguments Val {V} v.

#[global] Instance cell_eq_dec `{EqDecision V} : EqDecision (cell V).
Proof. solve_decision. Defined.

Record ndarray (A : Type) := mk_ndarray {
  shape : nat * nat;
  item : list (list A)
}.
Arguments mk_ndarray {A} shape item.
Arguments shape {A} _.
Arguments item {A} _.

(** The invariant numpy maintains between [shape] and the stored rows. *)
Definition wf_ndarray {A} (a : ndarray A) : Prop :=
  length (item a) = (shape a).1 ∧
  Forall (λ row, length row = (shape a).2) (item a).

(** [np.array(l)] on a list of 3-tuples of ints: a 2-D array with three
    columns, except that the empty list gives a 1-D array of shape (0,). *)
Inductive iso_array :=
  | Array1D (elems : list Z)
  | Array2D (rows : list (Z * Z * Z)).

Definition np_array (l : list (Z * Z * Z)) : iso_array :=
  match l with
  | [] => Array1D []
  | _ => Array2D l
  end.

(** [a[:, :2]], read row by row as tuples; two indices on a 1-D array raise
    [IndexError]. *)
Definition slice_cols_0_2 (a : iso_array) : result (list (Z * Z)) :=
  match a with
  | Array1D _ => Raise IndexError
  | Array2D rows => Ok (fst <$> rows)
  end.

(** [a[:, 2]]. *)
Definition slice_col_2 (a : iso_array) : result (list Z) :=
  match a with
  | Array1D _ => Raise IndexError
  | Array2D rows => Ok (snd <$> rows)
  end.

Definition np_full {A} (sh : nat * nat) (x : A) : ndarray A :=
  mk_ndarray sh (replicate sh.1 (replicate sh.2 x)).

(** [np.empty(sh, dtype=dtype)]: an object array starts out filled with
    [None]; a float64 array holds whatever the memory held. *)
Definition np_empty {V} (sh : nat * nat) (dt : dtype) : ndarray (cell V) :=
  np_full sh (match dt with float64 => Uninit | object => PyNone end).

(** [np.nan * a] on a float64 array: not-a-number times any float is
    not-a-number. *)
Definition nan_times {V} (a : ndarray (cell V)) : ndarray (cell V) :=
  mk_ndarray (shape a) (fmap (M:=list) (fmap (M:=list) (λ _, NaN)) (item a)).

(** [a[i, j]] for in-range indices. *)
Definition getitem {A} (a : ndarray A) (i j : nat) : option A :=
  item a !! i ≫= λ row, row !! j.

(** [a[i, j] = x] for in-range indices. *)
Definition setitem {A} (a : ndarray A) (i j : nat) (x : A) : ndarray A :=
  mk_ndarray (shape a) (alter (λ row, <[j := x]> row) i (item a)).

(** An integer index into an axis of length [n]: negative indices count
    from the end, anything outside [-n, n) raises [IndexError]. *)
Definition norm_index (n : nat) (i : Z) : result nat :=
  if (0 <=? i) && (i <? Z.of_nat n) then Ok (Z.to_nat i)
  else if (- Z.of_nat n <=? i) && (i <? 0) then Ok (Z.to_nat (i + Z.of_nat n))
  else Raise IndexError.

(** Broadcasting a 1-D value list against [n] index pairs. *)
Definition broadcast_to {A} (n : nat) (vals : list A) : result (list A) :=
  if decide (length vals = n) then Ok vals
  else match vals with
       | [v] => Ok (replicate n v)
       | _ => Raise ValueError
       end.

(** Writing a list of (row, column, value) entries one after the other. *)
Definition scatter {A} (a : ndarray A) (ws : list (nat * nat * A))
    : ndarray A :=
  foldl (λ a ijv, setitem a ijv.1.1 ijv.1.2 ijv.2) a ws.

(** [a[ii, jj] = vals] with integer index arrays: the index pairs are
    written in order, so a pair that occurs twice keeps the later value. *)
Definition setitem_adv {A} (a : ndarray A) (ii jj : list Z) (vals : list A)
    : result (ndarray A) :=
  ii' ← mapM (norm_index (shape a).1) ii;
  jj' ← mapM (norm_index (shape a).2) jj;
  vals' ← broadcast_to (length ii) vals;
  Ok (scatter a (zip (zip ii' jj') vals')).

(** Transposition of [rows], each of length [ncols]. *)
Fixpoint transpose_rows {A} (ncols : nat) (rows : list (list A))
    : list (list A) :=
  match rows with
  | [] => replicate ncols []
  | row :: rows => zip_with cons row (transpose_rows ncols rows)
  end.

(** [a.T] *)
Definition T {A} (a : ndarray A) : ndarray A :=
  mk_ndarray ((shape a).2, (shape a).1) (transpose_rows (shape a).2 (item a)).

(** [a == v], elementwise. *)
Definition eq_mask `{EqDecision V} (a : ndarray (cell V)) (v : V)
    : ndarray bool :=
  mk_ndarray (shape a)
    (fmap (M:=list) (fmap (M:=list) (λ c, bool_decide (c = Val v))) (item a)).

(** [np.nonzero(mask)]: the row indices and the column indices of the true
    cells, in row-major order. *)
Definition nonzero_coords (mask : ndarray bool) : list (nat * nat) :=
  mjoin (imap (λ i row,
    omap id (imap (λ j (b : bool), if b then Some (i, j) else None) row))
    (item mask)).

Definition nonzero (mask : ndarray bool) : list nat * list nat :=
  (fst <$> nonzero_coords mask, snd <$> nonzero_coords mask).

(** [a.max()] and [a.min()] on a 1-D index array; an empty array raises
    [ValueError]. *)
Definition np_max (l : list nat) : result nat :=
  match l with
  | [] => Raise ValueError
  | x :: l => Ok (foldr Nat.max x l)
  end.

Definition np_min (l : list nat) : result nat :=
  match l with
  | [] => Raise ValueError
  | x :: l => Ok (foldr Nat.min x l)
  end.

(** [np.ndindex(shape)]: all index pairs in row-major order. *)
Definition ndindex (sh : nat * nat) : list (nat * nat) :=
  i ← seq 0 sh.1; j ← seq 0 sh.2; [(i, j)].

(** ** date_grid *)

Section date_grid.
Context {V : Type}.

Definition date_grid (dates : list date) (data : list V) (flip : bool)
    (dtype : dtype) : result (ndarray (cell V)) :=
  (* Array with columns (iso year, iso week number, iso weekday). *)
  let iso_dates := np_array (isocalendar <$> dates) in
  (* Unique weeks, as defined by the tuple (iso year, iso week). *)
  weeks ← slice_cols_0_2 iso_dates;
  let unique_weeks := sorted_set_tuples weeks in
  (* Get dict that maps week tuple to week index in grid. *)
  let weeknum2idx := dict_of_enumerate unique_weeks in
  weeks ← slice_cols_0_2 iso_dates;
  week_coords ← mapM (dict_getitem weeknum2idx) weeks;
  weekdays ← slice_col_2 iso_dates;
  let day_coords := (λ wd, wd - 1) <$> weekdays in
  (* Define shape of grid. *)
  let n_weeks := length unique_weeks in
  let n_days := 7%nat in
  (* Create grid and fill with data. *)
  let grid := np_empty (n_weeks, n_days) dtype in
  let grid := if decide (dtype = float64) then nan_times grid else grid in
  grid ← setitem_adv grid (Z.of_nat <$> week_coords) day_coords (Val <$> data);
  if flip then Ok (T grid) else Ok grid.
End date_grid.

(** ** The plotting axes

    The axes object is modelled by the list of drawing calls made on it,
    oldest first. Coordinates are exact rationals: every tick position
    computed below is an integer or a half-integer, which float64 represents
    exactly. Styling keyword arguments (font, alignment) are left out. *)

Inductive ax_call :=
  | ax_text (x y : Q) (s : Z)
  | ax_set_xticks (ticks : list Q)
  | ax_set_xticklabels (labels : list string)
  | ax_set_yticks (ticks : list Q)
  | ax_set_yticklabels (labels : list string)
  | ax_annotate (text : Z) (xy : Q * Q) (xytext : Z * Z) (rotation : option Z).

Definition axes := list ax_call.

(** What a name can be bound to where [add_date_label] subscripts it. *)
Inductive pyobj :=
  | PyFunction (name : string)
  | PyArray (a : ndarray (cell Z)).

(** [o[i, j]]: a function object is not subscriptable. *)
Definition subscript (o : pyobj) (i j : nat) : result (cell Z) :=
  match o with
  | PyFunction _ => Raise TypeError
  | PyArray a =>
      match getitem a i j with
      | Some c => Ok c
      | None => Raise IndexError
      end
  end.

(** [int(x)] on a grid cell: not-a-number raises [ValueError], [None]
    raises [TypeError]. An uninitialised float has no determined value; it is
    treated like not-a-number here, and [date_grid] returns no such cell. *)
Definition py_int (c : cell Z) : result Z :=
  match c with
  | Val z => Ok z
  | NaN => Raise ValueError
  | PyNone => Raise TypeError
  | Uninit => Raise ValueError
  end.

Definition half : Q := 1 # 2.

Definition add_date_label (ax : axes) (dates : list date) (flip : bool)
    : result axes :=
  let days := day <$> dates in
  day_grid ← date_grid dates days flip float64;
  for_each (ndindex (shape day_grid)) ax (λ ax ij,
    try_except_ValueError
      (* the name [date_grid] is the module-level function *)
      (c ← subscript (PyFunction "date_grid") ij.1 ij.2;
       n ← py_int c;
       Ok (ax ++ [ax_text (inject_Z (Z.of_nat ij.2) + half)
                          (inject_Z (Z.of_nat ij.1) + half) n]))
      (* If date_grid[i, j] is nan. *)
      (Ok ax)).

(** The loop of [add_month_label] that fills [month_locs]. *)
Definition month_locs (month_year_grid : ndarray (cell string))
    (unique_month_years : list (Z * Z)) (flip : bool)
    : result (list ((Z * Z) * Q)) :=
  for_each unique_month_years [] (λ month_locs month,
    (* Get 'avg' x, y coordinates of elements in grid equal to month_year. *)
    let '(yy, xx) := nonzero (eq_mask month_year_grid (str_tuple month)) in
    hi ← np_max (if flip then xx else yy);
    lo ← np_min (if flip then xx else yy);
    Ok (odict_set month (Z.of_nat (hi + lo) # 2)%Q month_locs)).

Definition add_month_label (ax : axes) (dates : list date) (flip : bool)
    : result axes :=
  let month_years := (λ d, (year d, month d)) <$> dates in
  let month_years_str := str_tuple <$> month_years in
  month_year_grid ← date_grid dates month_years_str flip object;
  let unique_month_years := sorted_set_tuples month_years in
  month_locs ← month_locs month_year_grid unique_month_years flip;
  (* Get month label for each unique month_year. *)
  let month_labels := (λ x, month_abbr x.1.2) <$> month_locs in
  if flip then
    Ok (ax ++ [ax_set_xticks (snd <$> month_locs);
               ax_set_xticklabels month_labels])
  else
    Ok (ax ++ [ax_set_yticks (snd <$> month_locs);
               ax_set_yticklabels month_labels]).

(** The loop of [add_year_label] that fills [year_locs]. *)
Definition year_locs (year_grid : ndarray (cell Z)) (unique_years : list Z)
    (flip : bool) : result (list (Z * Q)) :=
  for_each unique_years [] (λ year_locs year,
    let '(yy, xx) := nonzero (eq_mask year_grid year) in
    hi ← np_max (if flip then xx else yy);
    lo ← np_min (if flip then xx else yy);
    Ok (odict_set year (Z.of_nat (hi + 1 + lo) # 2)%Q year_locs)).

Definition add_year_label (ax : axes) (dates : list date) (flip : bool)
    : result axes :=
  let years := year <$> dates in
  year_grid ← date_grid dates years flip float64;
  let unique_years := sorted_set_ints years in
  year_locs ← year_locs year_grid unique_years flip;
  if flip then
    for_each year_locs ax (λ ax yl,
      Ok (ax ++ [ax_annotate yl.1
                   (yl.2 / inject_Z (Z.of_nat (shape year_grid).2), 1)%Q
                   (0, 10) None]))
  else
    for_each year_locs ax (λ ax yl,
      Ok (ax ++ [ax_annotate yl.1
                   (0, 1 - yl.2 / inject_Z (Z.of_nat (shape year_grid).1))%Q
                   (-40, 0) (Some 90)])).

(** ** Vocabulary for the statements

    The local names of [date_grid] as functions of the input, and what it
    means for a date to land in a cell. *)

Definition unique_weeks (dates : list date) : list (Z * Z) :=
  sorted_set_tuples (iso_week <$> dates).
Definition weeknum2idx (dates : list date) : gmap (Z * Z) nat :=
  dict_of_enumerate (unique_weeks dates).
Definition week_coord (dates : list date) (d : date) : nat :=
  default 0%nat (weeknum2idx dates !! iso_week d).
Definition day_coord (d : date) : nat := Z.to_nat (iso_weekday d - 1).

(** Date [d] belongs in week row [r] and weekday column [c]. *)
Definition lands_at (dates : list date) (d : date) (r c : nat) : Prop :=
  unique_weeks dates !! r = Some (iso_week d) ∧ Z.of_nat c = iso_weekday d - 1.

#[global] Instance lands_at_dec dates d r c : Decision (lands_at dates d r c).
Proof. unfold lands_at. apply _. Defined.

(** The cell of week row [r] and weekday column [c] in a grid of the given
    orientation. *)
Definition grid_cell {A} (flip : bool) (g : ndarray A) (r c : nat)
    : option A :=
  if flip then getitem g c r else getitem g r c.

(** The filling of a cell nothing was written to. *)
Definition missing_marker {V} (dt : dtype) : cell V :=
  match dt with float64 => NaN | object => PyNone end.

(** The value of the last entry of [ws] written to cell (r, c), if any. *)
Fixpoint last_write {A} (ws : list (nat * nat * A)) (r c : nat) : option A :=
  match ws with
  | [] => None
  | w :: ws =>
      match last_write ws r c with
      | Some v => Some v
      | None => if decide (w.1 = (r, c)) then Some w.2 else None
      end
  end.

(** The entries [date_grid] writes: one per date, in input order. *)
Definition writes {V} (dates : list date) (vals : list V)
    : list (nat * nat * V) :=
  zip (zip (week_coord dates <$> dates) (day_coord <$> dates)) vals.

(** Week row [r] holds a cell of the group [v]: some input date tagged [v]
    (its month, its year) is in that row. *)
Definition group_row {G} (tag : date → G) (dates : list date) (v : G)
    (r : nat) : Prop :=
  ∃ d, d ∈ dates ∧ tag d = v ∧ unique_weeks dates !! r = Some (iso_week d).

Definition least (P : nat → Prop) (m : nat) : Prop :=
  P m ∧ ∀ r, P r → (m ≤ r)%nat.
Definition greatest (P : nat → Prop) (m : nat) : Prop :=
  P m ∧ ∀ r, P r → (r ≤ m)%nat.

(** The coordinates along the weeks axis that [np.nonzero] returned. *)
Definition weeks_axis (flip : bool) (yx : list nat * list nat) : list nat :=
  if flip then yx.2 else yx.1.

(** The characters of a printed int, and strings made of them. *)
Definition is_int_char (c : ascii) : Prop :=
  c ∈ ["0"; "1"; "2"; "3"; "4"; "5"; "6"; "7"; "8"; "9"; "-"]%char.

Fixpoint int_chars (s : string) : Prop :=
  match s with
  | EmptyString => True
  | String c s => is_int_char c ∧ int_chars s
  end.

(** ** Statements of the specification that do not hold as worded *)


(** An empty date list gives a grid with no rows. *)
Definition returns_empty_grid {V} (data : list V) (flip : bool) (dt : dtype)
    : Prop :=
  ∃ g, date_grid [] data flip dt = Ok g ∧ item g = [].

(** The year label sits at the average of the smallest and the largest week
    row of the year. *)
Definition year_label_at_min_max_average (dates : list date) (flip : bool)
    : Prop :=
  ∀ y, y ∈ year <$> dates →
    ∃ g locs lo hi pos,
      date_grid dates (year <$> dates) flip float64 = Ok g ∧
      year_locs g (sorted_set_ints (year <$> dates)) flip = Ok locs ∧
      odict_get locs y = Some pos ∧
      least (group_row year dates y) lo ∧
      greatest (group_row year dates y) hi ∧
      (pos == (inject_Z (Z.of_nat lo) + inject_Z (Z.of_nat hi)) / 2)%Q.

(** ** Further vocabulary: the order of dates and of cells *)

(** [d1 < d2] on dates: year, month and day are compared in that order. *)
Definition date_lt (d1 d2 : date) : Prop :=
  year d1 < year d2 ∨
  (year d1 = year d2 ∧
   (month d1 < month d2 ∨ (month d1 = month d2 ∧ day d1 < day d2))).

#[global] Instance date_lt_dec : RelDecision date_lt.
Proof. intros d1 d2. unfold date_lt. apply _. Defined.

(** Row-major order of cells. *)
Definition cell_lt (rc1 rc2 : nat * nat) : Prop :=
  (rc1.1 < rc2.1)%nat ∨ (rc1.1 = rc2.1 ∧ (rc1.2 < rc2.2)%nat).

(** The (year, month) group of a date, as [add_month_label] forms it. *)
Definition month_year (d : date) : Z * Z := (year d, month d).

(** ** calendar.weekheader, str.split and date.weekday *)

(** [calendar.day_abbr[i]] in the C locale. *)
Definition day_abbr (i : Z) : string :=
  match i with
  | 0 => "Mon" | 1 => "Tue" | 2 => "Wed" | 3 => "Thu" | 4 => "Fri"
  | 5 => "Sat" | 6 => "Sun" | _ => ""
  end%string.

(** The first weekday of the module-level calendar: Monday, since nothing in
    this module calls [calendar.setfirstweekday]. *)
Definition firstweekday : Z := 0.

(** [iterweekdays()]: one week of weekday numbers from the first weekday. *)
Definition iterweekdays : list Z :=
  (λ i, i mod 7) <$> seqZ firstweekday 7.

(** [formatweekday(day, width)] for a width up to 3: the abbreviation cut to
    [width] characters, which centring to [width] leaves as it is. *)
Definition formatweekday (day : Z) (width : nat) : string :=
  String.substring 0 width (day_abbr day).

(** [calendar.weekheader(width)] *)
Definition weekheader (width : nat) : string :=
  String.concat " " ((λ i, formatweekday i width) <$> iterweekdays).

(** [s.split(sep)] for a separator of one character. *)
Fixpoint str_split (sep : ascii) (s : string) : list string :=
  match s with
  | EmptyString => [EmptyString]
  | String c s =>
      if Ascii.eqb c sep then EmptyString :: str_split sep s
      else match str_split sep s with
           | [] => [String c EmptyString]
           | w :: ws => String c w :: ws
           end
  end.

(** [d.weekday()]: Monday is 0, Sunday is 6. *)
Definition weekday (d : date) : Z :=
  (ymd2ord (year d) (month d) (day d) + 6) mod 7.

(** ** add_weekday_label and cal_heatmap

    The axes of [cal_heatmap] take more calls than the label functions
    make: the log below wraps the label calls and adds the others. What
    [cal_heatmap] can raise besides the exceptions of the label functions is
    the [UnboundLocalError] of reading the local [fig] before it is
    assigned. The colorbar calls depend on the layout of the figure and are
    kept as one opaque entry. *)

Inductive plot_call (V : Type) :=
  | plt_subplots (figsize : Z * Z) (dpi : Z)
  | ax_pcolormesh (cal : ndarray (cell V)) (cmap : string)
  | ax_invert_yaxis
  | ax_set_aspect (aspect : string)
  | fig_colorbar
  | ax_tick_params (axis which : string) (pad length : option Z)
  | ax_xaxis_tick_top
  | ax_label (c : ax_call).
Arguments plt_subplots {V} figsize dpi.
Arguments ax_pcolormesh {V} cal cmap.
Arguments ax_invert_yaxis {V}.
Arguments ax_set_aspect {V} aspect.
Arguments fig_colorbar {V}.
Arguments ax_tick_params {V} axis which pad length.
Arguments ax_xaxis_tick_top {V}.
Arguments ax_label {V} c.

Inductive heatmap_exn := LabelError (e : exn) | UnboundLocalError.

Inductive outcome (A : Type) :=
  | Returned (a : A)
  | Raised (e : heatmap_exn).
Arguments Returned {A} a.
Arguments Raised {A} e.

#[global] Instance outcome_ret : MRet outcome := λ A, Returned.
#[global] Instance outcome_bind : MBind outcome := λ A B f m,
  match m with Returned a => f a | Raised e => Raised e end.

(** A label function called on the axes of [cal_heatmap]. The label
    functions only append to the axes they are given, so their calls are
    taken from a run on fresh axes and appended. *)
Definition on_axes {V} (f : axes → result axes) (ax : list (plot_call V))
    : outcome (list (plot_call V)) :=
  match f [] with
  | Ok calls => Returned (ax ++ (ax_label <$> calls))
  | Raise e => Raised (LabelError e)
  end.

(** [[x + 0.5 for x in range(0, 7)]] *)
Definition weekday_ticks : list Q := (λ x, inject_Z x + half)%Q <$> seqZ 0 7.

Definition add_weekday_label {V} (ax : list (plot_call V)) (flip : bool)
    : list (plot_call V) :=
  if flip then
    ax ++ [ax_tick_params "y" "major" (Some 8) None;
           ax_label (ax_set_yticks weekday_ticks);
           ax_label (ax_set_yticklabels (str_split " " (weekheader 1)))]
  else
    ax ++ [ax_tick_params "x" "major" (Some 4) None;
           ax_label (ax_set_xticks weekday_ticks);
           ax_label (ax_set_xticklabels (str_split " " (weekheader 1)));
           ax_xaxis_tick_top].

Definition cal_heatmap {V} (cal : ndarray (cell V)) (dates : list date)
    (flip : bool) (cmap : string)
    (colorbar date_label weekday_label month_label year_label : bool)
    (ax : option (list (plot_call V))) : outcome (list (plot_call V)) :=
  (* [fig] is bound only when no axes were passed in *)
  let '(fig, ax) :=
    match ax with
    | Some ax => (None, ax)
    | None =>
        let figsize := if flip then (10, 5) else (5, 10) in
        (Some tt, [plt_subplots figsize 100])
    end in
  let ax := ax ++ [ax_pcolormesh cal cmap] in
  let ax := ax ++ [ax_invert_yaxis] in
  let ax := ax ++ [ax_set_aspect "equal"] in
  ax ← (if colorbar then
          match fig with
          | Some _ => Returned (ax ++ [fig_colorbar])
          | None => Raised UnboundLocalError
          end
        else Returned ax);
  ax ← (if date_label then on_axes (λ a, add_date_label a dates flip) ax
        else Returned ax);
  let ax := if weekday_label then add_weekday_label ax flip else ax in
  ax ← (if month_label then on_axes (λ a, add_month_label a dates flip) ax
        else Returned ax);
  ax ← (if year_label then on_axes (λ a, add_year_label a dates flip) ax
        else Returned ax);
  Returned (ax ++ [ax_tick_params "both" "both" None (Some 0)]).


(** * Properties *)

(** ** The calendar *)

Ltac zdiv := Z.to_euclidean_division_equations; lia.

Lemma iso_weekday_range d : 1 ≤ iso_weekday d ≤ 7.
Proof.
  unfold iso_weekday, isocalendar.
  repeat case_match; simpl; zdiv.
Qed.

Lemma is_leap_spec y :
  is_leap y = true ↔ (y mod 4 = 0 ∧ (y mod 100 ≠ 0 ∨ y mod 400 = 0)).
Proof.
  unfold is_leap. rewrite andb_true_iff, orb_true_iff, negb_true_iff.
  rewrite !Z.eqb_eq, Z.eqb_neq. tauto.
Qed.

Lemma days_before_year_succ y :
  days_before_year (y + 1) = days_before_year y + (if is_leap y then 366 else 365).
Proof.
  unfold days_before_year. cbv zeta.
  replace (y + 1 - 1) with y by lia.
  destruct (is_leap y) eqn:E.
  - apply is_leap_spec in E. zdiv.
  - assert (¬ (y mod 4 = 0 ∧ (y mod 100 ≠ 0 ∨ y mod 400 = 0))) as N.
    { rewrite <- is_leap_spec. congruence. }
    zdiv.
Qed.

Lemma month_cases m : 1 ≤ m ≤ 12 →
  m = 1 ∨ m = 2 ∨ m = 3 ∨ m = 4 ∨ m = 5 ∨ m = 6 ∨
  m = 7 ∨ m = 8 ∨ m = 9 ∨ m = 10 ∨ m = 11 ∨ m = 12.
Proof. lia. Qed.

Lemma day_of_year_range d : valid_date d →
  1 ≤ days_before_month (year d) (month d) + day d ≤ year_length (year d).
Proof.
  destruct d as [y m dd]. unfold valid_date, year_length; simpl.
  intros (_ & Hm & Hd). revert Hd.
  unfold days_in_month, days_before_month.
  destruct (month_cases m Hm) as [->|[->|[->|[->|[->|[->|[->|[->|[->|[->|[->| ->]]]]]]]]]]];
    destruct (is_leap y); simpl; lia.
Qed.

Lemma day_of_year_inj y m1 d1 m2 d2 :
  valid_date (mkdate y m1 d1) → valid_date (mkdate y m2 d2) →
  days_before_month y m1 + d1 = days_before_month y m2 + d2 →
  m1 = m2 ∧ d1 = d2.
Proof.
  unfold valid_date; simpl. intros (_ & Hm1 & Hd1) (_ & Hm2 & Hd2).
  revert Hd1 Hd2. unfold days_in_month, days_before_month.
  destruct (is_leap y);
  destruct (month_cases m1 Hm1) as [->|[->|[->|[->|[->|[->|[->|[->|[->|[->|[->| ->]]]]]]]]]]];
  destruct (month_cases m2 Hm2) as [->|[->|[->|[->|[->|[->|[->|[->|[->|[->|[->| ->]]]]]]]]]]];
  simpl; lia.
Qed.

Lemma days_before_year_mono y1 y2 : y1 ≤ y2 → days_before_year y1 ≤ days_before_year y2.
Proof. unfold days_before_year. intros. zdiv. Qed.

Lemma ymd2ord_range d : valid_date d →
  days_before_year (year d) < ymd2ord (year d) (month d) (day d)
    ≤ days_before_year (year d + 1).
Proof.
  intros Hv. pose proof (day_of_year_range d Hv) as H.
  rewrite days_before_year_succ. unfold ymd2ord, year_length in *. lia.
Qed.

Lemma ymd2ord_inj d1 d2 : valid_date d1 → valid_date d2 →
  ymd2ord (year d1) (month d1) (day d1) = ymd2ord (year d2) (month d2) (day d2) →
  d1 = d2.
Proof.
  intros Hv1 Hv2 Heq.
  pose proof (ymd2ord_range d1 Hv1) as R1.
  pose proof (ymd2ord_range d2 Hv2) as R2.
  assert (year d1 = year d2) as Hy.
  { destruct (Z.lt_trichotomy (year d1) (year d2)) as [Hlt|[?|Hlt]]; [|done|].
    - pose proof (days_before_year_mono (year d1 + 1) (year d2)). lia.
    - pose proof (days_before_year_mono (year d2 + 1) (year d1)). lia. }
  destruct d1 as [y1 m1 dd1], d2 as [y2 m2 dd2]; simpl in *. subst y2.
  destruct (day_of_year_inj y1 m1 dd1 m2 dd2 Hv1 Hv2) as [-> ->]; [|done].
  unfold ymd2ord in Heq. lia.
Qed.

Lemma isoweek1monday_spec y :
  let f := days_before_year y + 1 in
  f - 3 ≤ isoweek1monday y ≤ f + 3 ∧ isoweek1monday y mod 7 = 1.
Proof.
  unfold isoweek1monday, ymd2ord, days_before_month. simpl.
  set (f := days_before_year y). clearbody f.
  case_match; zdiv.
Qed.

Lemma isocalendar_ord d : valid_date d →
  ymd2ord (year d) (month d) (day d) =
    isoweek1monday (isocalendar d).1.1 + 7 * ((isocalendar d).1.2 - 1)
      + ((isocalendar d).2 - 1).
Proof.
  intros Hv. pose proof (ymd2ord_range d Hv) as R.
  pose proof (isoweek1monday_spec (year d + 1)) as [B1 M1].
  pose proof (isoweek1monday_spec (year d)) as [_ M0].
  unfold isocalendar. cbv zeta in *.
  repeat case_match; simpl; [zdiv| |zdiv].
  match goal with H : _ && _ = true |- _ =>
    apply andb_true_iff in H as [_ ?%Z.leb_le] end.
  zdiv.
Qed.

Lemma isocalendar_inj d1 d2 : valid_date d1 → valid_date d2 →
  isocalendar d1 = isocalendar d2 → d1 = d2.
Proof.
  intros Hv1 Hv2 Heq. apply ymd2ord_inj; [done..|].
  rewrite (isocalendar_ord d1 Hv1), (isocalendar_ord d2 Hv2). by rewrite Heq.
Qed.

(** ** The result monad *)

Lemma bind_Ok_inv {A B} (f : A → result B) (m : result A) (b : B) :
  m ≫= f = Ok b → ∃ a, m = Ok a ∧ f a = Ok b.
Proof. destruct m as [a|e]; [eauto|discriminate]. Qed.

(** ** sorted(set(..)) *)

#[global] Instance tuple_le_trans : Transitive tuple_le.
Proof. intros [??] [??] [??]; unfold tuple_le; simpl; lia. Qed.
#[global] Instance tuple_le_total : Total tuple_le.
Proof. intros [??] [??]; unfold tuple_le; simpl; lia. Qed.

Lemma sorted_set_tuples_perm l :
  sorted_set_tuples l ≡ₚ remove_dups l.
Proof.
  unfold sorted_set_tuples. rewrite merge_sort_Permutation.
  apply NoDup_Permutation.
  - apply NoDup_elements.
  - apply NoDup_remove_dups.
  - intros k. rewrite elem_of_elements, elem_of_list_to_set, elem_of_remove_dups.
    done.
Qed.

Lemma elem_of_sorted_set_tuples l k : k ∈ sorted_set_tuples l ↔ k ∈ l.
Proof. by rewrite sorted_set_tuples_perm, elem_of_remove_dups. Qed.

Lemma NoDup_sorted_set_tuples l : NoDup (sorted_set_tuples l).
Proof. rewrite sorted_set_tuples_perm. apply NoDup_remove_dups. Qed.

Lemma StronglySorted_le_lt (l : list (Z * Z)) :
  NoDup l → StronglySorted tuple_le l → StronglySorted tuple_lt l.
Proof.
  induction 2 as [|x l Hl IH Hx]; [constructor|].
  apply NoDup_cons in H as [Hnx Hnd]. constructor; [auto|].
  rewrite Forall_forall in Hx |- *. intros y Hy.
  specialize (Hx y Hy). assert (x ≠ y) by (intros ->; done).
  destruct x, y; unfold tuple_le, tuple_lt in *; simpl in *.
  destruct (decide (z0 = z2)); [|lia]. subst.
  assert (z ≠ z1) by congruence. lia.
Qed.

Lemma sorted_set_tuples_ascending l :
  StronglySorted tuple_lt (sorted_set_tuples l).
Proof.
  apply StronglySorted_le_lt; [apply NoDup_sorted_set_tuples|].
  apply (StronglySorted_merge_sort _).
Qed.

Lemma sorted_set_ints_perm l : sorted_set_ints l ≡ₚ remove_dups l.
Proof.
  unfold sorted_set_ints. rewrite merge_sort_Permutation.
  apply NoDup_Permutation.
  - apply NoDup_elements.
  - apply NoDup_remove_dups.
  - intros k. rewrite elem_of_elements, elem_of_list_to_set, elem_of_remove_dups.
    done.
Qed.

Lemma elem_of_sorted_set_ints l k : k ∈ sorted_set_ints l ↔ k ∈ l.
Proof. by rewrite sorted_set_ints_perm, elem_of_remove_dups. Qed.

Lemma NoDup_sorted_set_ints l : NoDup (sorted_set_ints l).
Proof. rewrite sorted_set_ints_perm. apply NoDup_remove_dups. Qed.

(** ** The dict built from enumerate *)

Section dict_of_enumerate.
Context `{Countable K}.
Implicit Types l : list K.

Lemma dict_of_enumerate_snoc l k :
  dict_of_enumerate (l ++ [k]) = <[k := length l]> (dict_of_enumerate l).
Proof.
  unfold dict_of_enumerate. rewrite imap_app, foldl_app. simpl.
  by rewrite Nat.add_0_r.
Qed.

Lemma dict_of_enumerate_lookup l k i :
  NoDup l → dict_of_enumerate l !! k = Some i ↔ l !! i = Some k.
Proof.
  induction l as [|x l IH] using rev_ind; intros Hnd.
  - unfold dict_of_enumerate. simpl. rewrite lookup_empty. by split.
  - apply NoDup_app in Hnd as (Hnd & Hx & _).
    rewrite dict_of_enumerate_snoc. destruct (decide (x = k)) as [->|Hne].
    + rewrite lookup_insert_eq. split.
      * intros [= <-]. by rewrite list_lookup_middle.
      * intros Hi. f_equal.
        destruct (decide (i < length l)%nat) as [Hlt|Hge].
        -- rewrite lookup_app_l in Hi by done.
           apply list_elem_of_lookup_2 in Hi. exfalso. eapply Hx; [done|].
           apply list_elem_of_singleton. done.
        -- apply lookup_lt_Some in Hi. rewrite length_app in Hi. simpl in Hi.
           lia.
    + rewrite lookup_insert_ne by done. rewrite IH by done. split.
      * intros Hi. by rewrite lookup_app_l by (by eapply lookup_lt_Some).
      * intros Hi. destruct (decide (i < length l)%nat) as [Hlt|Hge].
        -- by rewrite lookup_app_l in Hi.
        -- rewrite lookup_app_r in Hi by lia.
           apply list_lookup_singleton_Some in Hi as [_ ?]. done.
Qed.
End dict_of_enumerate.

(** ** Arrays *)

Section ndarray.
Context {A : Type}.
Implicit Types a : ndarray A.

Lemma getitem_Some a i j x :
  wf_ndarray a → getitem a i j = Some x →
  (i < (shape a).1)%nat ∧ (j < (shape a).2)%nat.
Proof.
  intros [Hlen Hrows]. unfold getitem.
  destruct (item a !! i) as [row|] eqn:Hi; [|done]. simpl. intros Hj.
  split.
  - rewrite <- Hlen. by eapply lookup_lt_Some.
  - rewrite Forall_forall in Hrows.
    rewrite <- (Hrows row) by (by eapply list_elem_of_lookup_2).
    by eapply lookup_lt_Some.
Qed.

Lemma getitem_np_full sh (x : A) i j :
  (i < sh.1)%nat → (j < sh.2)%nat → getitem (np_full sh x) i j = Some x.
Proof.
  intros Hi Hj. unfold getitem, np_full. simpl.
  rewrite lookup_replicate_2 by done. simpl. by rewrite lookup_replicate_2.
Qed.

Lemma wf_np_full sh (x : A) : wf_ndarray (np_full sh x).
Proof.
  split; simpl; [by rewrite length_replicate|].
  apply Forall_replicate. by rewrite length_replicate.
Qed.

Lemma wf_setitem a i j x : wf_ndarray a → wf_ndarray (setitem a i j x).
Proof.
  intros [Hlen Hrows]. split; simpl; [by rewrite length_alter|].
  rewrite Forall_forall in Hrows |- *. intros row Hrow.
  apply list_elem_of_lookup in Hrow as [k Hk].
  destruct (decide (i = k)) as [->|Hne].
  - rewrite list_lookup_alter_eq in Hk.
    destruct (item a !! k) as [row'|] eqn:Hk'; [|done].
    injection Hk as <-. rewrite length_insert.
    apply Hrows. by eapply list_elem_of_lookup_2.
  - rewrite list_lookup_alter_ne in Hk by done.
    apply Hrows. by eapply list_elem_of_lookup_2.
Qed.

Lemma getitem_setitem a i j x r c :
  getitem (setitem a i j x) r c =
    if decide ((i, j) = (r, c)) then (λ _, x) <$> getitem a r c else getitem a r c.
Proof.
  unfold getitem, setitem. simpl.
  destruct (decide (i = r)) as [->|Hi].
  - rewrite list_lookup_alter_eq.
    destruct (item a !! r) as [row|]; simpl; [|by case_decide].
    destruct (decide (j = c)) as [->|Hj].
    + rewrite decide_True by done.
      destruct (row !! c) eqn:Hc; simpl.
      * apply list_lookup_insert_eq. by eapply lookup_lt_Some.
      * apply lookup_ge_None. rewrite length_insert.
        by apply lookup_ge_None.
    + rewrite decide_False by congruence.
      by rewrite list_lookup_insert_ne.
  - rewrite list_lookup_alter_ne by done.
    rewrite decide_False by congruence. done.
Qed.

Lemma shape_scatter a ws : shape (scatter a ws) = shape a.
Proof. revert a. induction ws as [|w ws IH]; intros a; [done|]. simpl. by rewrite IH. Qed.

Lemma wf_scatter a ws : wf_ndarray a → wf_ndarray (scatter a ws).
Proof.
  revert a. induction ws as [|w ws IH]; intros a Ha; [done|].
  simpl. apply IH. by apply wf_setitem.
Qed.

Lemma getitem_scatter a ws r c :
  is_Some (getitem a r c) →
  getitem (scatter a ws) r c =
    match last_write ws r c with
    | Some v => Some v
    | None => getitem a r c
    end.
Proof.
  revert a. induction ws as [|w ws IH]; intros a Ha; [done|].
  simpl. rewrite IH.
  - destruct (last_write ws r c); [done|].
    rewrite getitem_setitem. destruct w as [[i j] v]; simpl.
    case_decide; [|done]. destruct Ha as [y ->]. done.
  - rewrite getitem_setitem. case_decide; [|done].
    destruct Ha as [y ->]. by eexists.
Qed.
End ndarray.

Lemma last_write_None {A} (ws : list (nat * nat * A)) r c :
  last_write ws r c = None ↔ ∀ w, w ∈ ws → w.1 ≠ (r, c).
Proof.
  induction ws as [|w ws IH]; simpl.
  - split; [|done]. intros _ w Hw. by apply not_elem_of_nil in Hw.
  - destruct (last_write ws r c) as [v|].
    + split; [done|]. intros Hall. exfalso.
      destruct IH as [_ IH]. 
      assert (@None A = Some v → False) by done.
      enough (Some v = @None A) by done. apply IH.
      intros w' Hw'. apply Hall. by right.
    + case_decide as Hw.
      * split; [done|]. intros Hall. exfalso. by apply (Hall w); [left|].
      * split; [|done]. intros _ w' [->|Hw']%elem_of_cons; [done|].
        by apply IH.
Qed.

Lemma last_write_Some {A} (ws : list (nat * nat * A)) r c v :
  last_write ws r c = Some v →
  ∃ k, ws !! k = Some (r, c, v) ∧
       ∀ k' w, (k < k')%nat → ws !! k' = Some w → w.1 ≠ (r, c).
Proof.
  revert v. induction ws as [|w ws IH]; intros v; simpl; [done|].
  destruct (last_write ws r c) as [v'|] eqn:Hl.
  - intros [= <-]. destruct (IH v' eq_refl) as (k & Hk & Hlater).
    exists (S k). split; [done|]. intros [|k'] w' ?; [lia|]. simpl.
    apply Hlater. lia.
  - case_decide as Hw; [|done]. intros [= <-]. exists 0%nat. split.
    + simpl. destruct w as [[??]?]; simpl in *. by injection Hw as -> ->.
    + intros [|k'] w' ?; [lia|]. simpl. intros Hk'.
      apply (proj1 (last_write_None ws r c) Hl). by eapply list_elem_of_lookup_2.
Qed.

Lemma last_write_lookup {A} (ws : list (nat * nat * A)) r c v k :
  ws !! k = Some (r, c, v) →
  (∀ k' w, (k < k')%nat → ws !! k' = Some w → w.1 ≠ (r, c)) →
  last_write ws r c = Some v.
Proof.
  intros Hk Hlater. destruct (last_write ws r c) as [v'|] eqn:Hl.
  - apply last_write_Some in Hl as (k' & Hk' & Hlater').
    destruct (Nat.lt_trichotomy k k') as [?|[->|?]].
    + exfalso. by apply (Hlater k' (r, c, v')).
    + congruence.
    + exfalso. by apply (Hlater' k (r, c, v)).
  - exfalso.
    apply (proj1 (last_write_None ws r c) Hl (r, c, v)); [|done].
    by eapply list_elem_of_lookup_2.
Qed.

Section transpose.
Context {A : Type}.
Implicit Types rows : list (list A).

Lemma length_transpose_rows n rows :
  Forall (λ row, length row = n) rows → length (transpose_rows n rows) = n.
Proof.
  induction 1 as [|row rows Hrow _ IH]; simpl.
  - by rewrite length_replicate.
  - rewrite length_zip_with. lia.
Qed.

Lemma transpose_rows_lookup n rows i j :
  Forall (λ row, length row = n) rows →
  transpose_rows n rows !! j ≫= (λ col, col !! i) =
  rows !! i ≫= (λ row, row !! j).
Proof.
  intros Hrows. revert i. induction Hrows as [|row rows Hrow Hrows IH]; intros i; simpl.
  - destruct (replicate n [] !! j) as [col|] eqn:Hj; simpl; [|done].
    apply lookup_replicate in Hj as [-> _]. done.
  - rewrite lookup_zip_with.
    destruct (row !! j) as [x|] eqn:Hx; simpl.
    + destruct (transpose_rows n rows !! j) as [col|] eqn:Hcol; simpl.
      * destruct i as [|i]; simpl; [done|].
        apply (IH i).
      * apply lookup_ge_None in Hcol.
        rewrite length_transpose_rows in Hcol by done.
        apply lookup_lt_Some in Hx. lia.
    + destruct i as [|i]; simpl; [done|].
      rewrite <- IH.
      destruct (transpose_rows n rows !! j) as [col|] eqn:Hcol; simpl; [|done].
      apply lookup_lt_Some in Hcol.
      rewrite length_transpose_rows in Hcol by done.
      apply lookup_ge_None in Hx. lia.
Qed.

Lemma Forall_length_transpose_rows n rows :
  Forall (λ row, length row = n) rows →
  Forall (λ col, length col = length rows) (transpose_rows n rows).
Proof.
  induction 1 as [|row rows Hrow Hrows IH]; simpl.
  - apply Forall_replicate. done.
  - revert IH. generalize (transpose_rows n rows). clear.
    intros M. revert row. induction M as [|col M IH]; intros [|x row] HM; simpl; try constructor.
    + simpl. f_equal. by apply Forall_inv in HM.
    + apply IH. by apply Forall_inv_tail in HM.
Qed.




Lemma wf_T (a : ndarray A) : wf_ndarray a → wf_ndarray (T a).
Proof.
  intros [Hlen Hrows]. split; simpl.
  - by apply length_transpose_rows.
  - rewrite <- Hlen. by apply Forall_length_transpose_rows.
Qed.

Lemma getitem_T (a : ndarray A) i j :
  wf_ndarray a → getitem (T a) j i = getitem a i j.
Proof. intros [_ Hrows]. by apply transpose_rows_lookup. Qed.

End transpose.

(** ** Where dates land *)


Lemma weeknum2idx_lookup dates k r :
  weeknum2idx dates !! k = Some r ↔ unique_weeks dates !! r = Some k.
Proof. apply dict_of_enumerate_lookup, NoDup_sorted_set_tuples. Qed.

Lemma weeknum2idx_is_Some dates d :
  d ∈ dates → is_Some (weeknum2idx dates !! iso_week d).
Proof.
  intros Hd.
  assert (iso_week d ∈ unique_weeks dates) as Hin.
  { apply elem_of_sorted_set_tuples, list_elem_of_fmap. eauto. }
  apply list_elem_of_lookup in Hin as [r Hr].
  exists r. by apply weeknum2idx_lookup.
Qed.

Lemma week_coord_lookup dates d :
  d ∈ dates → unique_weeks dates !! week_coord dates d = Some (iso_week d).
Proof.
  intros [r Hr]%weeknum2idx_is_Some. unfold week_coord. rewrite Hr. simpl.
  by apply weeknum2idx_lookup.
Qed.

Lemma week_coord_lt dates d :
  d ∈ dates → (week_coord dates d < length (unique_weeks dates))%nat.
Proof. intros Hd. eapply lookup_lt_Some, week_coord_lookup, Hd. Qed.

Lemma day_coord_lt d : (day_coord d < 7)%nat.
Proof. unfold day_coord. pose proof (iso_weekday_range d). lia. Qed.

Lemma lands_at_coords dates d r c :
  d ∈ dates → lands_at dates d r c ↔ (week_coord dates d, day_coord d) = (r, c).
Proof.
  intros Hd. unfold lands_at. pose proof (iso_weekday_range d) as Hwd.
  pose proof (week_coord_lookup dates d Hd) as Hr. split.
  - intros [Hr' Hc]. f_equal.
    + eapply NoDup_lookup; [apply NoDup_sorted_set_tuples|done..].
    + unfold day_coord. lia.
  - intros [= <- <-]. split; [done|]. unfold day_coord. lia.
Qed.

Lemma lands_at_inj dates d1 d2 r c :
  valid_date d1 → valid_date d2 →
  lands_at dates d1 r c → lands_at dates d2 r c → d1 = d2.
Proof.
  intros Hv1 Hv2 [Hr1 Hc1] [Hr2 Hc2]. apply isocalendar_inj; [done..|].
  unfold iso_week, iso_weekday in *.
  destruct (isocalendar d1) as [k1 w1], (isocalendar d2) as [k2 w2].
  simpl in *. f_equal; [congruence|lia].
Qed.

Lemma elem_of_last_occurrence (d : date) dates :
  d ∈ dates → ∃ k, dates !! k = Some d ∧ d ∉ drop (S k) dates.
Proof.
  induction dates as [|d' dates IH]; intros Hd; [by apply elem_of_nil in Hd|].
  destruct (decide (d ∈ dates)) as [Hin|Hnin].
  - destruct (IH Hin) as (k & ? & ?). by exists (S k).
  - apply elem_of_cons in Hd as [->|?]; [|done]. by exists 0%nat.
Qed.

(** ** date_grid in closed form *)

Lemma norm_index_in_range n (i : nat) :
  (i < n)%nat → norm_index n (Z.of_nat i) = Ok i.
Proof.
  intros Hi. unfold norm_index.
  rewrite andb_true_intro by (split; [apply Z.leb_le|apply Z.ltb_lt]; lia).
  by rewrite Nat2Z.id.
Qed.

Lemma nan_times_np_empty {V} sh :
  nan_times (np_empty (V:=V) sh float64) = np_full sh NaN.
Proof.
  unfold nan_times, np_empty, np_full. simpl. f_equal.
  rewrite fmap_replicate. f_equal. by rewrite fmap_replicate.
Qed.

Lemma mapM_fmap_Ok {A B C} (f : B → result C) (h : A → B) (g : A → C) l :
  Forall (λ x, f (h x) = Ok (g x)) l → mapM f (h <$> l) = Ok (g <$> l).
Proof.
  induction 1 as [|x l Hx _ IH]; [done|].
  rewrite fmap_cons. cbn [mapM]. rewrite Hx. simpl.
  fold (mapM f (h <$> l)). by rewrite IH.
Qed.

Lemma date_grid_closed_form {V} dates (data : list V) flip dt :
  dates ≠ [] →
  date_grid dates data flip dt =
    vals ← broadcast_to (length dates) (Val <$> data);
    let grid := scatter (np_full (length (unique_weeks dates), 7%nat)
                           (missing_marker dt)) (writes dates vals) in
    Ok (if flip then T grid else grid).
Proof.
  intros Hne. unfold date_grid.
  assert (np_array (isocalendar <$> dates) = Array2D (isocalendar <$> dates))
    as ->.
  { by destruct dates. }
  simpl. rewrite <- !list_fmap_compose.
  change (fst ∘ isocalendar) with iso_week.
  fold (unique_weeks dates). fold (weeknum2idx dates).
  rewrite (mapM_fmap_Ok _ _ (week_coord dates)); last first.
  { apply Forall_forall. intros d Hd. unfold dict_getitem, week_coord.
    by destruct (weeknum2idx_is_Some dates d Hd) as [r ->]. }
  simpl.
  assert ((if decide (dt = float64)
           then nan_times (np_empty (length (unique_weeks dates), 7%nat) dt)
           else np_empty (length (unique_weeks dates), 7%nat) dt)
          = np_full (A:=cell V) (length (unique_weeks dates), 7%nat)
              (missing_marker dt)) as ->.
  { destruct dt; simpl; [apply nan_times_np_empty|done]. }
  unfold setitem_adv. simpl. rewrite <- !list_fmap_compose.
  rewrite (mapM_fmap_Ok _ (Z.of_nat ∘ week_coord dates) (week_coord dates));
    last first.
  { apply Forall_forall. intros d Hd. simpl.
    by apply norm_index_in_range, week_coord_lt. }
  simpl.
  rewrite (mapM_fmap_Ok _ _ day_coord); last first.
  { apply Forall_forall. intros d Hd. simpl.
    pose proof (day_coord_lt d) as Hlt.
    rewrite <- (norm_index_in_range 7 (day_coord d) Hlt). f_equal.
    unfold day_coord, iso_weekday. pose proof (iso_weekday_range d).
    unfold iso_weekday in *. lia. }
  simpl. rewrite !length_fmap.
  destruct (broadcast_to (length dates) (Val <$> data)) as [vals|e];
    simpl; [|done].
  by destruct flip.
Qed.

Lemma broadcast_to_same {A} n (vals : list A) :
  length vals = n → broadcast_to n vals = Ok vals.
Proof. intros. unfold broadcast_to. by rewrite decide_True. Qed.

Lemma writes_lookup {V} dates (vals : list V) k r c v :
  writes dates vals !! k = Some (r, c, v) ↔
  ∃ d, dates !! k = Some d ∧ vals !! k = Some v ∧
       (week_coord dates d, day_coord d) = (r, c).
Proof.
  unfold writes. rewrite lookup_zip_with_Some.
  setoid_rewrite lookup_zip_with_Some. split.
  - intros ([r' c'] & v' & [= <- <- <-] & (r'' & c'' & [= <- <-] & Hr & Hc) & Hv).
    rewrite list_lookup_fmap in Hr, Hc.
    destruct (dates !! k) as [d|]; simplify_eq/=. eauto.
  - intros (d & Hd & Hv & [= <- <-]).
    exists (week_coord dates d, day_coord d), v. split_and!; [done| |done].
    exists (week_coord dates d), (day_coord d).
    rewrite !list_lookup_fmap, Hd. done.
Qed.

Section date_grid_cells.
Context {V : Type}.
Implicit Types (dates : list date) (data : list V) (g : ndarray (cell V)).

Lemma date_grid_Ok_inv dates data flip dt g :
  dates ≠ [] → date_grid dates data flip dt = Ok g →
  ∃ vals, broadcast_to (length dates) (Val <$> data) = Ok vals ∧
    g = let grid := scatter (np_full (length (unique_weeks dates), 7%nat)
                               (missing_marker dt)) (writes dates vals) in
        if flip then T grid else grid.
Proof.
  intros Hne. rewrite date_grid_closed_form by done.
  intros (vals & Hvals & [= <-])%bind_Ok_inv. eauto.
Qed.

Lemma date_grid_wf dates data flip dt g :
  dates ≠ [] → date_grid dates data flip dt = Ok g →
  wf_ndarray g ∧
  shape g = let n := length (unique_weeks dates) in
            if flip then (7%nat, n) else (n, 7%nat).
Proof.
  intros Hne (vals & _ & ->)%date_grid_Ok_inv; [|done]. cbv zeta.
  set (grid := scatter _ _).
  assert (wf_ndarray grid) by apply wf_scatter, wf_np_full.
  assert (shape grid = (length (unique_weeks dates), 7%nat))
    as Hsh by apply shape_scatter.
  destruct flip; [|done]. split; [by apply wf_T|].
  unfold T. simpl. by rewrite Hsh.
Qed.

Lemma date_grid_cell dates data flip dt g r c :
  dates ≠ [] → date_grid dates data flip dt = Ok g →
  (r < length (unique_weeks dates))%nat → (c < 7)%nat →
  ∃ vals, broadcast_to (length dates) (Val <$> data) = Ok vals ∧
    grid_cell flip g r c =
      Some (default (missing_marker dt) (last_write (writes dates vals) r c)).
Proof.
  intros Hne (vals & Hvals & ->)%date_grid_Ok_inv Hr Hc; [|done].
  exists vals. split; [done|]. cbv zeta. set (init := np_full _ _).
  assert (grid_cell flip
            (if flip then T (scatter init (writes dates vals))
             else scatter init (writes dates vals)) r c
          = getitem (scatter init (writes dates vals)) r c) as ->.
  { destruct flip; [|done]. apply getitem_T, wf_scatter, wf_np_full. }
  rewrite getitem_scatter.
  - unfold init. rewrite getitem_np_full by done.
    by destruct (last_write _ _ _).
  - unfold init. rewrite getitem_np_full by done. by eexists.
Qed.

Lemma last_write_writes_None dates (vals : list (cell V)) r c :
  (∀ d, d ∈ dates → ¬ lands_at dates d r c) →
  last_write (writes dates vals) r c = None.
Proof.
  intros Hno. apply last_write_None. intros [[r' c'] v] Hw [= -> ->].
  apply list_elem_of_lookup in Hw as [k Hk].
  apply writes_lookup in Hk as (d & Hd & _ & Hrc).
  apply list_elem_of_lookup_2 in Hd.
  apply (Hno d Hd). by apply lands_at_coords.
Qed.

Lemma last_write_writes_Some dates (vals : list (cell V)) r c v :
  last_write (writes dates vals) r c = Some v →
  ∃ k d, dates !! k = Some d ∧ vals !! k = Some v ∧ lands_at dates d r c.
Proof.
  intros (k & Hk & _)%last_write_Some.
  apply writes_lookup in Hk as (d & Hd & Hv & Hrc).
  exists k, d. split_and!; [done..|].
  apply lands_at_coords; [by eapply list_elem_of_lookup_2|done].
Qed.

Lemma last_write_writes_last dates (vals : list (cell V)) k d v :
  Forall valid_date dates →
  dates !! k = Some d → vals !! k = Some v → d ∉ drop (S k) dates →
  last_write (writes dates vals) (week_coord dates d) (day_coord d) = Some v.
Proof.
  intros Hvalid Hd Hv Hlast. apply (last_write_lookup _ _ _ _ k).
  - apply writes_lookup. eauto.
  - intros k' [[r' c'] v'] Hlt Hk' [= -> ->].
    apply writes_lookup in Hk' as (d' & Hd' & _ & Hrc).
    rewrite Forall_forall in Hvalid.
    assert (d ∈ dates) as Hin by (by eapply list_elem_of_lookup_2).
    assert (d' ∈ dates) as Hin' by (by eapply list_elem_of_lookup_2).
    assert (d' = d) as ->.
    { eapply (lands_at_inj dates); [by apply Hvalid..| |].
      - by apply lands_at_coords.
      - by apply lands_at_coords. }
    apply Hlast. apply list_elem_of_lookup. exists (k' - S k)%nat.
    rewrite lookup_drop. rewrite <- Hd'. f_equal. lia.
Qed.
End date_grid_cells.

(** ** Claims about date_grid *)


Lemma date_grid_total {V} dates (data : list V) flip dt :
  dates ≠ [] → length data = length dates →
  ∃ g, date_grid dates data flip dt = Ok g.
Proof.
  intros Hne Hlen. rewrite date_grid_closed_form by done.
  rewrite broadcast_to_same by (by rewrite length_fmap). simpl. eauto.
Qed.

Lemma date_grid_cell_last {V} dates (data : list V) flip dt k d v :
  Forall valid_date dates → length data = length dates →
  dates !! k = Some d → data !! k = Some v → d ∉ drop (S k) dates →
  ∃ g r c, date_grid dates data flip dt = Ok g ∧
    lands_at dates d r c ∧ (c < 7)%nat ∧
    grid_cell flip g r c = Some (Val v).
Proof.
  intros Hvalid Hlen Hd Hv Hlast.
  assert (dates ≠ []) as Hne by (by destruct dates).
  assert (d ∈ dates) as Hin by (by eapply list_elem_of_lookup_2).
  destruct (date_grid_total dates data flip dt Hne Hlen) as [g Hg].
  exists g, (week_coord dates d), (day_coord d). split; [done|].
  split; [by apply lands_at_coords|]. split; [apply day_coord_lt|].
  destruct (date_grid_cell dates data flip dt g (week_coord dates d)
              (day_coord d) Hne Hg) as (vals & Hvals & ->);
    [by apply week_coord_lt|apply day_coord_lt|].
  rewrite broadcast_to_same in Hvals by (by rewrite length_fmap).
  injection Hvals as <-.
  rewrite (last_write_writes_last dates _ k d (Val v)); [done..| |done].
  by rewrite list_lookup_fmap, Hv.
Qed.







Lemma grid_cell_Some_lt {A} (flip : bool) (g : ndarray A) (n r c : nat)
    (x : A) :
  wf_ndarray g → shape g = (if flip then (7%nat, n) else (n, 7%nat)) →
  grid_cell flip g r c = Some x → (r < n)%nat ∧ (c < 7)%nat.
Proof.
  intros Hwf Hsh Hx.
  destruct flip; simpl in Hx; apply getitem_Some in Hx as [??]; try done;
    rewrite Hsh in *; simpl in *; lia.
Qed.

Lemma date_grid_cell_origin {V} dates (data : list V) flip dt g r c v :
  dates ≠ [] → length data = length dates →
  date_grid dates data flip dt = Ok g →
  grid_cell flip g r c = Some (Val v) →
  ∃ k d, dates !! k = Some d ∧ data !! k = Some v ∧ lands_at dates d r c.
Proof.
  intros Hne Hlen Hg Hcell.
  destruct (date_grid_wf dates data flip dt g Hne Hg) as [Hwf Hsh].
  destruct (grid_cell_Some_lt flip g _ r c _ Hwf Hsh Hcell) as [Hr Hc].
  destruct (date_grid_cell dates data flip dt g r c Hne Hg Hr Hc)
    as (vals & Hvals & Hcell').
  rewrite broadcast_to_same in Hvals by (by rewrite length_fmap).
  injection Hvals as <-. rewrite Hcell in Hcell'.
  destruct (last_write _ _ _) as [w|] eqn:Hw; simpl in Hcell'.
  - injection Hcell' as <-.
    apply last_write_writes_Some in Hw as (k & d & Hd & Hv & Hland).
    exists k, d. split_and!; [done| |done].
    rewrite list_lookup_fmap in Hv.
    destruct (data !! k); simplify_eq/=. done.
  - by destruct dt.
Qed.



(** C7. In a grid returned by [date_grid], a cell of the week rows and
    weekday columns in which no input date lands holds not-a-number when the
    dtype is float64 and [None] when it is object. *)
Theorem date_grid_missing_cells {V} dates (data : list V) flip dt g r c :
  date_grid dates data flip dt = Ok g →
  (r < length (unique_weeks dates))%nat → (c < 7)%nat →
  Forall (λ d, ¬ lands_at dates d r c) dates →
  grid_cell flip g r c =
    Some (match dt with float64 => NaN | object => PyNone end).
Proof.
  intros Hg Hr Hc Hno.
  assert (dates ≠ []) as Hne by (by intros ->).
  destruct (date_grid_cell dates data flip dt g r c Hne Hg Hr Hc)
    as (vals & _ & ->).
  rewrite last_write_writes_None; [done|].
  by apply Forall_forall.
Qed.

Lemma date_grid_missing_cells_witness :
  grid_cell false
    (mk_ndarray (2%nat, 7%nat)
       [[NaN; NaN; NaN; NaN; Val 5; NaN; NaN];
        [NaN; NaN; NaN; NaN; Val 10; NaN; NaN]]) 1 3 = Some NaN.
Proof.
  apply (date_grid_missing_cells [mkdate 2021 1 1; mkdate 2021 1 8] [5; 10]
           false float64).
  - vm_compute. reflexivity.
  - vm_compute. lia.
  - lia.
  - compute_done.
Defined.

(** C8 (as amended). Called with an empty date list, [date_grid] raises
    [IndexError]: the array of ISO triples is then one-dimensional and
    cannot be sliced along two axes. No grid is returned. *)
Theorem date_grid_empty_raises {V} (data : list V) flip dt :
  date_grid [] data flip dt = Raise IndexError.
Proof. reflexivity. Qed.

(** C8 as worded fails: no grid comes back for the empty date list. *)
Lemma date_grid_empty_counterexample :
  ¬ returns_empty_grid ([] : list Z) false float64.
Proof. intros (g & Hg & _). discriminate. Qed.



(** ** str on tuples is injective *)

Lemma int_chars_pretty_N_go x s : int_chars s → int_chars (pretty_N_go x s).
Proof.
  revert s. induction (N.lt_wf_0 x) as [x _ IH]; intros s Hs.
  assert (x = 0 ∨ 0 < x)%N as [->|?] by lia.
  - by rewrite pretty_N_go_0.
  - rewrite pretty_N_go_step by done. apply IH.
    { by apply N.div_lt. }
    split; [|done]. unfold pretty_N_char, is_int_char.
    repeat case_match; compute_done.
Qed.

Lemma int_chars_pretty_Z (z : Z) : int_chars (pretty z).
Proof.
  assert (∀ n : N, int_chars (pretty n)) as HN.
  { intros n. unfold pretty, pretty_N. case_decide.
    - split; [|done]. compute_done.
    - by apply int_chars_pretty_N_go. }
  destruct z as [|p|p]; unfold pretty, pretty_Z.
  - split; [|done]. compute_done.
  - apply HN.
  - split; [compute_done|apply HN].
Qed.

Lemma int_chars_split (sep : ascii) a a' s s' :
  ¬ is_int_char sep → int_chars a → int_chars a' →
  a +:+ String sep s = a' +:+ String sep s' → a = a' ∧ s = s'.
Proof.
  intros Hsep. revert a'.
  induction a as [|c a IH]; intros [|c' a'] Ha Ha' Heq; simplify_eq/=.
  - done.
  - by destruct Ha'.
  - by destruct Ha.
  - destruct Ha, Ha'. by destruct (IH a') as [-> ->].
Qed.

#[global] Instance str_tuple_inj : Inj (=) (=) str_tuple.
Proof.
  intros [y m] [y' m']. unfold str_tuple. simpl. intros [= Heq].
  apply int_chars_split in Heq as [Hy Heq];
    [|compute_done|apply int_chars_pretty_Z..].
  injection Heq as Heq.
  apply int_chars_split in Heq as [Hm _];
    [|compute_done|apply int_chars_pretty_Z..].
  f_equal; by apply (inj pretty).
Qed.

(** ** nonzero, max and min *)

Lemma elem_of_nonzero_coords mask i j :
  (i, j) ∈ nonzero_coords mask ↔ getitem mask i j = Some true.
Proof.
  unfold nonzero_coords, getitem. rewrite list_elem_of_join. split.
  - intros (l & Hin & Hl).
    apply elem_of_lookup_imap in Hl as (i' & row & -> & Hrow).
    apply list_elem_of_omap in Hin as (x & Hx & Hid).
    apply elem_of_lookup_imap in Hx as (j' & b & -> & Hb).
    destruct b; simplify_eq/=. rewrite Hrow. done.
  - intros Hij. destruct (item mask !! i) as [row|] eqn:Hrow; [|done].
    simpl in Hij. eexists. split; [|by eapply elem_of_lookup_imap_2].
    apply list_elem_of_omap. exists (Some (i, j)). split; [|done].
    by apply (elem_of_lookup_imap_2
      (λ j (b : bool), if b then Some (i, j) else None) row true j).
Qed.

Lemma getitem_eq_mask `{EqDecision V} (a : ndarray (cell V)) (v : V) i j :
  getitem (eq_mask a v) i j = Some true ↔ getitem a i j = Some (Val v).
Proof.
  unfold getitem, eq_mask. simpl. rewrite list_lookup_fmap.
  destruct (item a !! i) as [row|]; simpl; [|done].
  rewrite list_lookup_fmap. destruct (row !! j) as [c|]; simpl; [|done].
  split.
  - intros [= Hc]. by apply bool_decide_eq_true in Hc as ->.
  - intros [= ->]. by rewrite bool_decide_eq_true_2.
Qed.

Lemma elem_of_weeks_axis `{EqDecision V} flip (g : ndarray (cell V)) v r :
  r ∈ weeks_axis flip (nonzero (eq_mask g v)) ↔
  ∃ c, grid_cell flip g r c = Some (Val v).
Proof.
  unfold weeks_axis, nonzero, grid_cell.
  destruct flip; simpl; rewrite list_elem_of_fmap; split.
  - intros ([i j] & -> & Hin). exists i. simpl.
    by apply getitem_eq_mask, elem_of_nonzero_coords.
  - intros (c & Hc). exists (c, r). split; [done|].
    by apply elem_of_nonzero_coords, getitem_eq_mask.
  - intros ([i j] & -> & Hin). exists j. simpl.
    by apply getitem_eq_mask, elem_of_nonzero_coords.
  - intros (c & Hc). exists (r, c). split; [done|].
    by apply elem_of_nonzero_coords, getitem_eq_mask.
Qed.

Lemma np_max_spec l :
  l ≠ [] → ∃ m, np_max l = Ok m ∧ greatest (.∈ l) m.
Proof.
  destruct l as [|x l]; [done|]. intros _. simpl. eexists. split; [done|].
  induction l as [|y l [IHin IHle]]; simpl.
  - split; [by left|]. intros r ->%list_elem_of_singleton. done.
  - split.
    + destruct (Nat.max_spec y (foldr Nat.max x l)) as [[_ ->]|[_ ->]].
      * apply elem_of_cons in IHin as [->|?]; [by left|by right; right].
      * right. by left.
    + intros r Hr. 
      assert (r = y ∨ r ∈ x :: l) as [->|Hr'].
      { apply elem_of_cons in Hr as [->|[->|Hr]%elem_of_cons];
          [right; by left|by left|right; by right]. }
      * lia.
      * specialize (IHle r Hr'). lia.
Qed.

Lemma np_min_spec l :
  l ≠ [] → ∃ m, np_min l = Ok m ∧ least (.∈ l) m.
Proof.
  destruct l as [|x l]; [done|]. intros _. simpl. eexists. split; [done|].
  induction l as [|y l [IHin IHle]]; simpl.
  - split; [by left|]. intros r ->%list_elem_of_singleton. done.
  - split.
    + destruct (Nat.min_spec y (foldr Nat.min x l)) as [[_ ->]|[_ ->]].
      * right. by left.
      * apply elem_of_cons in IHin as [->|?]; [by left|by right; right].
    + intros r Hr. 
      assert (r = y ∨ r ∈ x :: l) as [->|Hr'].
      { apply elem_of_cons in Hr as [->|[->|Hr]%elem_of_cons];
          [right; by left|by left|right; by right]. }
      * lia.
      * specialize (IHle r Hr'). lia.
Qed.

(** ** Loops that fill an ordered dict or append to the axes *)

Lemma odict_set_fresh {K W} `{EqDecision K} (k : K) (v : W) d :
  k ∉ d.*1 → odict_set k v d = d ++ [(k, v)].
Proof.
  induction d as [|[k' v'] d IH]; simpl; [done|]. intros Hk.
  apply not_elem_of_cons in Hk as [Hne Hk].
  rewrite decide_False by done. by rewrite IH.
Qed.

Lemma odict_get_app_fresh {K W} `{EqDecision K} (k : K) (v : W) d d' :
  k ∉ d.*1 → odict_get (d ++ (k, v) :: d') k = Some v.
Proof.
  induction d as [|[k' v'] d IH]; simpl; intros Hk.
  - unfold odict_get. simpl. by rewrite decide_True.
  - apply not_elem_of_cons in Hk as [Hne Hk]. specialize (IH Hk).
    unfold odict_get in *. simpl. rewrite decide_False by done.
    destruct (list_find _ _) as [[??]|]; simplify_eq/=. done.
Qed.

Lemma for_each_odict {K W} `{EqDecision K} (P : K → W → Prop)
    (body : list (K * W) → K → result (list (K * W))) l acc :
  NoDup l → (∀ k, k ∈ l → k ∉ acc.*1) →
  (∀ k acc, k ∈ l → ∃ v, body acc k = Ok (odict_set k v acc) ∧ P k v) →
  ∃ locs, for_each l acc body = Ok (acc ++ locs) ∧ locs.*1 = l ∧
    ∀ k, k ∈ l → ∃ v, odict_get (acc ++ locs) k = Some v ∧ P k v.
Proof.
  intros Hnd. revert acc.
  induction Hnd as [|k l Hk Hnd IH]; intros acc Hfresh Hbody; simpl.
  - exists []. rewrite app_nil_r. split_and!; [done..|].
    intros k Hk. by apply elem_of_nil in Hk.
  - destruct (Hbody k acc) as (v & -> & Hv); [by left|]. simpl.
    rewrite odict_set_fresh by (apply Hfresh; by left).
    destruct (IH (acc ++ [(k, v)])) as (locs & -> & Hkeys & Hlocs).
    { intros k' Hk'. rewrite fmap_app, elem_of_app. simpl.
      rewrite list_elem_of_singleton. intros [?| ->]; [|done].
      by apply (Hfresh k'); [right|]. }
    { intros k' acc' Hk'. apply Hbody. by right. }
    exists ((k, v) :: locs). rewrite <- app_assoc.
    split_and!; [done|by rewrite fmap_cons, Hkeys|].
    intros k' [->|Hk']%elem_of_cons.
    + exists v. split; [|done]. apply odict_get_app_fresh, Hfresh. by left.
    + destruct (Hlocs k' Hk') as (v' & Hget & Hv').
      rewrite <- app_assoc in Hget. eauto.
Qed.

Lemma for_each_append {A B} (f : A → B) (l : list A) (acc : list B) :
  for_each l acc (λ acc x, Ok (acc ++ [f x])) = Ok (acc ++ (f <$> l)).
Proof.
  revert acc. induction l as [|x l IH]; intros acc; simpl.
  - by rewrite app_nil_r.
  - rewrite IH. by rewrite <- app_assoc.
Qed.

(** ** The week rows of a group of dates *)

Lemma grid_cell_group_row {G} (tag : date → G) dates flip dt g v r :
  dates ≠ [] → Forall valid_date dates →
  date_grid dates (tag <$> dates) flip dt = Ok g →
  (∃ c, grid_cell flip g r c = Some (Val v)) ↔ group_row tag dates v r.
Proof.
  intros Hne Hvalid Hg.
  assert (length (tag <$> dates) = length dates) as Hlen
    by apply length_fmap.
  split.
  - intros [c Hc].
    apply (date_grid_cell_origin dates _ flip dt g _ _ _ Hne Hlen Hg) in Hc
      as (k & d & Hd & Hv & [Hr _]).
    rewrite list_lookup_fmap, Hd in Hv. injection Hv as <-.
    exists d. split_and!; [by eapply list_elem_of_lookup_2|done..].
  - intros (d & Hd & <- & Hr).
    destruct (elem_of_last_occurrence d dates Hd) as (k & Hk & Hlast).
    destruct (date_grid_cell_last dates (tag <$> dates) flip dt k d (tag d)
                Hvalid Hlen Hk) as (g' & r' & c & Hg' & [Hr' _] & _ & Hcell);
      [by rewrite list_lookup_fmap, Hk|done|].
    assert (g' = g) as -> by congruence.
    assert (r' = r) as ->.
    { eapply NoDup_lookup; [apply NoDup_sorted_set_tuples|done..]. }
    eauto.
Qed.

Lemma weeks_axis_extremes `{EqDecision G} (tag : date → G) dates flip dt g v :
  dates ≠ [] → Forall valid_date dates →
  date_grid dates (tag <$> dates) flip dt = Ok g →
  v ∈ tag <$> dates →
  ∃ hi lo,
    np_max (weeks_axis flip (nonzero (eq_mask g v))) = Ok hi ∧
    np_min (weeks_axis flip (nonzero (eq_mask g v))) = Ok lo ∧
    greatest (group_row tag dates v) hi ∧ least (group_row tag dates v) lo.
Proof.
  intros Hne Hvalid Hg Hv.
  assert (∀ r, r ∈ weeks_axis flip (nonzero (eq_mask g v)) ↔
               group_row tag dates v r) as Hrows.
  { intros r. rewrite elem_of_weeks_axis. by eapply grid_cell_group_row. }
  assert (weeks_axis flip (nonzero (eq_mask g v)) ≠ []) as Hnonempty.
  { apply list_elem_of_fmap in Hv as (d & -> & Hd).
    assert (week_coord dates d ∈ weeks_axis flip (nonzero (eq_mask g (tag d))))
      as Hin.
    { apply Hrows. exists d. split_and!; [done..|].
      by apply week_coord_lookup. }
    intros Hnil. rewrite Hnil in Hin. by apply elem_of_nil in Hin. }
  destruct (np_max_spec _ Hnonempty) as (hi & Hhi & Hhi_in & Hhi_ge).
  destruct (np_min_spec _ Hnonempty) as (lo & Hlo & Hlo_in & Hlo_le).
  exists hi, lo. split_and!; [done..| |].
  - split; [by apply Hrows|]. intros r Hr. by apply Hhi_ge, Hrows.
  - split; [by apply Hrows|]. intros r Hr. by apply Hlo_le, Hrows.
Qed.

Lemma group_row_inj {G H} (f : G → H) `{!Inj (=) (=) f} (tag : date → G)
    dates v r :
  group_row (f ∘ tag) dates (f v) r ↔ group_row tag dates v r.
Proof.
  unfold group_row. split; intros (d & ? & Htag & ?); exists d.
  - split_and!; [done| |done]. by apply (inj f).
  - split_and!; [done| |done]. simpl. by rewrite Htag.
Qed.

(** ** Claims about the labels *)

(** C4. For a non-empty list of valid dates, [add_month_label] sets one
    tick per distinct (year, month) of the input, in ascending order, and
    the tick of a month is at (min + max) / 2, where min and max are the
    smallest and the largest week row that holds a date of that month; the
    rows in between play no part, so a month whose dates span rows 3 to 5
    gets position 4. *)
Theorem add_month_label_positions ax dates flip :
  dates ≠ [] → Forall valid_date dates →
  let month_of := λ d, (year d, month d) in
  ∃ locs,
    add_month_label ax dates flip =
      Ok (ax ++
          if flip
          then [ax_set_xticks locs.*2;
                ax_set_xticklabels ((λ x, month_abbr x.1.2) <$> locs)]
          else [ax_set_yticks locs.*2;
                ax_set_yticklabels ((λ x, month_abbr x.1.2) <$> locs)]) ∧
    locs.*1 = sorted_set_tuples (month_of <$> dates) ∧
    ∀ ym, ym ∈ month_of <$> dates →
      ∃ lo hi pos,
        odict_get locs ym = Some pos ∧
        least (group_row month_of dates ym) lo ∧
        greatest (group_row month_of dates ym) hi ∧
        pos = (Z.of_nat (hi + lo) # 2)%Q ∧
        (lo = 3%nat → hi = 5%nat → (pos == 4)%Q).
Proof.
  intros Hne Hvalid month_of. unfold add_month_label.
  fold month_of. rewrite <- list_fmap_compose.
  destruct (date_grid_total dates ((str_tuple ∘ month_of) <$> dates) flip
              object Hne) as [g Hg]; [apply length_fmap|].
  rewrite Hg. simpl.
  destruct (for_each_odict
    (λ ym pos, ∃ lo hi, least (group_row month_of dates ym) lo ∧
       greatest (group_row month_of dates ym) hi ∧
       pos = (Z.of_nat (hi + lo) # 2)%Q)
    (λ month_locs month,
       let '(yy, xx) := nonzero (eq_mask g (str_tuple month)) in
       hi ← np_max (if flip then xx else yy);
       lo ← np_min (if flip then xx else yy);
       Ok (odict_set month (Z.of_nat (hi + lo) # 2)%Q month_locs))
    (sorted_set_tuples (month_of <$> dates)) [])
    as (locs & Hloop & Hkeys & Hlocs).
  - apply NoDup_sorted_set_tuples.
  - intros k _ Hk. by apply elem_of_nil in Hk.
  - intros ym acc Hym. apply (proj1 (elem_of_sorted_set_tuples _ _)) in Hym.
    destruct (weeks_axis_extremes (str_tuple ∘ month_of) dates flip object g
                (str_tuple ym) Hne Hvalid Hg)
      as (hi & lo & Hhi & Hlo & Hgreatest & Hleast).
    { rewrite list_fmap_compose. by apply list_elem_of_fmap_2. }
    unfold weeks_axis, nonzero in Hhi, Hlo. simpl in Hhi, Hlo.
    unfold nonzero. 
    replace (if flip then snd <$> nonzero_coords (eq_mask g (str_tuple ym))
             else fst <$> nonzero_coords (eq_mask g (str_tuple ym)))
      with (if flip then (nonzero_coords (eq_mask g (str_tuple ym))).*2
            else (nonzero_coords (eq_mask g (str_tuple ym))).*1) by done.
    rewrite Hhi. simpl. rewrite Hlo. simpl.
    eexists. split; [done|]. exists lo, hi. split_and!; [| |done].
    + destruct Hleast as [Hin Hle]. split.
      * by apply (group_row_inj str_tuple month_of).
      * intros r Hr. by apply Hle, (group_row_inj str_tuple month_of).
    + destruct Hgreatest as [Hin Hge]. split.
      * by apply (group_row_inj str_tuple month_of).
      * intros r Hr. by apply Hge, (group_row_inj str_tuple month_of).
  - exists locs. unfold month_locs. rewrite Hloop. simpl.
    split_and!; [by destruct flip|done|].
    intros ym Hym. apply (proj2 (elem_of_sorted_set_tuples _ _)) in Hym.
    destruct (Hlocs ym Hym) as (pos & Hget & lo & hi & Hlo & Hhi & ->).
    exists lo, hi. eexists. split_and!; [done..|].
    intros -> ->. reflexivity.
Qed.

Lemma add_month_label_positions_witness :
  let dates := [mkdate 2020 12 7; mkdate 2020 12 14; mkdate 2020 12 21;
                mkdate 2021 1 4; mkdate 2021 1 11; mkdate 2021 1 18] in
  let month_of := λ d, (year d, month d) in
  ∃ locs,
    add_month_label [] dates false =
      Ok [ax_set_yticks locs.*2;
          ax_set_yticklabels ((λ x, month_abbr x.1.2) <$> locs)] ∧
    locs.*1 = sorted_set_tuples (month_of <$> dates) ∧
    ∀ ym, ym ∈ month_of <$> dates →
      ∃ lo hi pos,
        odict_get locs ym = Some pos ∧
        least (group_row month_of dates ym) lo ∧
        greatest (group_row month_of dates ym) hi ∧
        pos = (Z.of_nat (hi + lo) # 2)%Q ∧
        (lo = 3%nat → hi = 5%nat → (pos == 4)%Q).
Proof.
  apply (add_month_label_positions []
           [mkdate 2020 12 7; mkdate 2020 12 14; mkdate 2020 12 21;
            mkdate 2021 1 4; mkdate 2021 1 11; mkdate 2021 1 18] false).
  - done.
  - compute_done.
Defined.

(** C10 (as amended). For a non-empty list of valid dates,
    [add_year_label] annotates one label per distinct year of the input, in
    ascending order, and the position of a year along the weeks axis is
    (min + max + 1) / 2, where min and max are the smallest and the largest
    week row that holds a date of that year: half a cell further than the
    month rule, since it is then divided by the number of weeks to give an
    axes fraction. *)
Theorem add_year_label_positions ax dates flip :
  dates ≠ [] → Forall valid_date dates →
  let n := inject_Z (Z.of_nat (length (unique_weeks dates))) in
  ∃ locs,
    add_year_label ax dates flip =
      Ok (ax ++
          ((λ yl, if flip
                  then ax_annotate yl.1 (yl.2 / n, 1)%Q (0, 10) None
                  else ax_annotate yl.1 (0, 1 - yl.2 / n)%Q (-40, 0) (Some 90))
           <$> locs)) ∧
    locs.*1 = sorted_set_ints (year <$> dates) ∧
    ∀ y, y ∈ year <$> dates →
      ∃ lo hi pos,
        odict_get locs y = Some pos ∧
        least (group_row year dates y) lo ∧
        greatest (group_row year dates y) hi ∧
        pos = (Z.of_nat (hi + 1 + lo) # 2)%Q.
Proof.
  intros Hne Hvalid n. unfold add_year_label.
  destruct (date_grid_total dates (year <$> dates) flip float64 Hne)
    as [g Hg]; [apply length_fmap|].
  rewrite Hg. simpl.
  destruct (date_grid_wf dates _ flip float64 g Hne Hg) as [_ Hsh].
  destruct (for_each_odict
    (λ y pos, ∃ lo hi, least (group_row year dates y) lo ∧
       greatest (group_row year dates y) hi ∧
       pos = (Z.of_nat (hi + 1 + lo) # 2)%Q)
    (λ year_locs year,
       let '(yy, xx) := nonzero (eq_mask g year) in
       hi ← np_max (if flip then xx else yy);
       lo ← np_min (if flip then xx else yy);
       Ok (odict_set year (Z.of_nat (hi + 1 + lo) # 2)%Q year_locs))
    (sorted_set_ints (year <$> dates)) [])
    as (locs & Hloop & Hkeys & Hlocs).
  - apply NoDup_sorted_set_ints.
  - intros k _ Hk. by apply elem_of_nil in Hk.
  - intros y acc Hy. apply (proj1 (elem_of_sorted_set_ints _ _)) in Hy.
    destruct (weeks_axis_extremes year dates flip float64 g y Hne Hvalid Hg Hy)
      as (hi & lo & Hhi & Hlo & Hgreatest & Hleast).
    unfold weeks_axis, nonzero in Hhi, Hlo. simpl in Hhi, Hlo.
    unfold nonzero.
    replace (if flip then snd <$> nonzero_coords (eq_mask g y)
             else fst <$> nonzero_coords (eq_mask g y))
      with (if flip then (nonzero_coords (eq_mask g y)).*2
            else (nonzero_coords (eq_mask g y)).*1) by done.
    rewrite Hhi. simpl. rewrite Hlo. simpl.
    eexists. split; [done|]. by exists lo, hi.
  - exists locs. unfold year_locs. rewrite Hloop. simpl.
    split_and!; [|done|].
    + destruct flip.
      * rewrite (for_each_append (λ yl, ax_annotate yl.1
          (yl.2 / inject_Z (Z.of_nat (shape g).2), 1)%Q (0, 10) None)).
        by rewrite Hsh.
      * rewrite (for_each_append (λ yl, ax_annotate yl.1
          (0, 1 - yl.2 / inject_Z (Z.of_nat (shape g).1))%Q (-40, 0)
          (Some 90))).
        by rewrite Hsh.
    + intros y Hy. apply (proj2 (elem_of_sorted_set_ints _ _)) in Hy.
      destruct (Hlocs y Hy) as (pos & Hget & lo & hi & Hlo & Hhi & ->).
      exists lo, hi. eexists. by split_and!.
Qed.

Lemma add_year_label_positions_witness :
  let dates := [mkdate 2021 1 4] in
  let n := inject_Z (Z.of_nat (length (unique_weeks dates))) in
  ∃ locs,
    add_year_label [] dates false =
      Ok ((λ yl, ax_annotate yl.1 (0, 1 - yl.2 / n)%Q (-40, 0) (Some 90))
          <$> locs) ∧
    locs.*1 = sorted_set_ints (year <$> dates) ∧
    ∀ y, y ∈ year <$> dates →
      ∃ lo hi pos,
        odict_get locs y = Some pos ∧
        least (group_row year dates y) lo ∧
        greatest (group_row year dates y) hi ∧
        pos = (Z.of_nat (hi + 1 + lo) # 2)%Q.
Proof.
  apply (add_year_label_positions [] [mkdate 2021 1 4] false).
  - done.
  - compute_done.
Defined.

(** C10 as worded fails: a year whose dates are all in week row 0 is
    labelled at 1/2, not at (0 + 0) / 2. *)
Lemma add_year_label_counterexample :
  ¬ year_label_at_min_max_average [mkdate 2021 1 4] false.
Proof.
  intros Hclaim.
  destruct (Hclaim 2021) as (g & locs & lo & hi & pos & Hg & Hlocs & Hget
                             & [Hlo _] & [Hhi _] & Hpos).
  { by left. }
  vm_compute in Hg. injection Hg as <-.
  vm_compute in Hlocs. injection Hlocs as <-.
  vm_compute in Hget. injection Hget as <-.
  assert (∀ r, group_row year [mkdate 2021 1 4] 2021 r → r = 0%nat) as Hrow.
  { intros r (d & _ & _ & Hr). apply lookup_lt_Some in Hr.
    replace (length (unique_weeks _)) with 1%nat in Hr by (by vm_compute).
    lia. }
  rewrite (Hrow lo Hlo), (Hrow hi Hhi) in Hpos. by vm_compute in Hpos.
Qed.

(** C6 (the code departs from it). On every non-empty date list
    [add_date_label] raises [TypeError] at the first cell: it subscripts the
    function [date_grid] instead of the grid it has just built, and the
    handler only catches [ValueError]. No label is drawn. *)
Theorem add_date_label_raises_TypeError ax dates flip :
  dates ≠ [] → add_date_label ax dates flip = Raise TypeError.
Proof.
  intros Hne. unfold add_date_label.
  destruct (date_grid_total dates (day <$> dates) flip float64 Hne)
    as [g Hg]; [apply length_fmap|].
  rewrite Hg. simpl.
  destruct (date_grid_wf dates _ flip float64 g Hne Hg) as [_ ->].
  assert (∃ n, length (unique_weeks dates) = S n) as [n ->].
  { destruct dates as [|d dates]; [done|].
    pose proof (week_coord_lt (d :: dates) d) as Hlt.
    destruct (length (unique_weeks (d :: dates))); [|eauto].
    exfalso. apply (Nat.nlt_0_r (week_coord (d :: dates) d)), Hlt. by left. }
  by destruct flip.
Qed.

Lemma add_date_label_raises_TypeError_witness :
  add_date_label [] [mkdate 2021 1 1; mkdate 2021 1 8] false
  = Raise TypeError.
Proof.
  by apply (add_date_label_raises_TypeError []
              [mkdate 2021 1 1; mkdate 2021 1 8] false).
Defined.

(** ** Worked examples *)

Example isocalendar_year_boundary :
  isocalendar <$> [mkdate 2018 12 31; mkdate 2019 1 1; mkdate 2020 1 1;
                   mkdate 2021 1 1; mkdate 2016 1 3]
  = [(2019, 1, 1); (2019, 1, 2); (2020, 1, 3); (2020, 53, 5); (2015, 53, 7)].
Proof. reflexivity. Qed.

(** Two Fridays a week apart: two rows, column 4 filled in both. *)
Example date_grid_two_fridays :
  date_grid [mkdate 2021 1 1; mkdate 2021 1 8] [5; 10] false float64
  = Ok (mk_ndarray (2%nat, 7%nat)
          [[NaN; NaN; NaN; NaN; Val 5; NaN; NaN];
           [NaN; NaN; NaN; NaN; Val 10; NaN; NaN]]).
Proof. vm_compute. reflexivity. Qed.

(** One value for several dates is broadcast; any other length mismatch
    raises. *)
Example date_grid_broadcast :
  date_grid [mkdate 2021 1 1; mkdate 2021 1 2] [5] false float64
  = Ok (mk_ndarray (1%nat, 7%nat) [[NaN; NaN; NaN; NaN; Val 5; Val 5; NaN]]) ∧
  date_grid [mkdate 2021 1 1; mkdate 2021 1 2] [5; 6; 7] false float64
  = Raise ValueError.
Proof. split; vm_compute; reflexivity. Qed.

(** December 2020 in rows 0 to 2, January 2021 in rows 3 to 5: ticks at 1
    and at 4. *)
Example add_month_label_rows_3_to_5 :
  add_month_label []
    [mkdate 2020 12 7; mkdate 2020 12 14; mkdate 2020 12 21;
     mkdate 2021 1 4; mkdate 2021 1 11; mkdate 2021 1 18] false
  = Ok [ax_set_yticks [2 # 2; 8 # 2]%Q; ax_set_yticklabels ["Dec"; "Jan"]%string].
Proof. vm_compute. reflexivity. Qed.

(** The same dates: 2020 in rows 0 to 2 is labelled at (0 + 2 + 1) / 2 of 6
    weeks, 2021 in rows 3 to 5 at (3 + 5 + 1) / 2 of 6 weeks. *)
Example add_year_label_two_years :
  year_locs
    (mk_ndarray (6%nat, 7%nat)
       [[Val 2020; NaN; NaN; NaN; NaN; NaN; NaN];
        [Val 2020; NaN; NaN; NaN; NaN; NaN; NaN];
        [Val 2020; NaN; NaN; NaN; NaN; NaN; NaN];
        [Val 2021; NaN; NaN; NaN; NaN; NaN; NaN];
        [Val 2021; NaN; NaN; NaN; NaN; NaN; NaN];
        [Val 2021; NaN; NaN; NaN; NaN; NaN; NaN]]) [2020; 2021] false
  = Ok [(2020, (3 # 2)%Q); (2021, (9 # 2)%Q)].
Proof. vm_compute. reflexivity. Qed.

(** * Further properties of the code *)

(** ** date_grid: outcomes *)


Lemma last_write_is_Some {A} (ws : list (nat * nat * A)) r c w :
  w ∈ ws → w.1 = (r, c) → is_Some (last_write ws r c).
Proof.
  intros Hw Hrc. destruct (last_write ws r c) as [v|] eqn:Hl; [by eexists|].
  exfalso. by apply (proj1 (last_write_None ws r c) Hl w).
Qed.

Lemma last_write_elem_of {A} (ws : list (nat * nat * A)) r c v :
  last_write ws r c = Some v → (r, c, v) ∈ ws.
Proof.
  intros (k & Hk & _)%last_write_Some. by eapply list_elem_of_lookup_2.
Qed.


Lemma lands_at_lt dates d r c :
  lands_at dates d r c → (r < length (unique_weeks dates))%nat ∧ (c < 7)%nat.
Proof.
  intros [Hr Hc]. split; [by eapply lookup_lt_Some|].
  pose proof (iso_weekday_range d). lia.
Qed.



(** ** date_grid: what the cells hold *)




(** X4. No week row of a returned grid is empty: with as many values as
    dates, every row of the weeks axis has a weekday column that holds a
    value of the input. Weeks without any date get no row at all. *)
Theorem date_grid_no_empty_row {V} dates (data : list V) flip dt g r :
  length data = length dates → date_grid dates data flip dt = Ok g →
  (r < length (unique_weeks dates))%nat →
  ∃ c v, (c < 7)%nat ∧ v ∈ data ∧ grid_cell flip g r c = Some (Val v).
Proof.
  intros Hlen Hg Hr.
  assert (dates ≠ []) as Hne by (by intros ->).
  destruct (lookup_lt_is_Some_2 _ _ Hr) as [wk Hwk].
  assert (wk ∈ unique_weeks dates) as Hin
    by (by eapply list_elem_of_lookup_2).
  apply elem_of_sorted_set_tuples, list_elem_of_fmap in Hin
    as (d & -> & Hd).
  set (c := day_coord d).
  assert (lands_at dates d r c) as Hland.
  { split; [done|]. unfold c, day_coord.
    pose proof (iso_weekday_range d). lia. }
  exists c. destruct (lands_at_lt dates d r c Hland) as [_ Hc].
  destruct (date_grid_cell dates data flip dt g r c Hne Hg Hr Hc)
    as (vals & Hvals & Hcell).
  rewrite broadcast_to_same in Hvals by (by rewrite length_fmap).
  injection Hvals as <-.
  apply list_elem_of_lookup in Hd as [k Hk].
  destruct (lookup_lt_is_Some_2 data k) as [v Hv].
  { rewrite Hlen. by eapply lookup_lt_Some. }
  destruct (last_write_is_Some (writes dates (Val <$> data)) r c
              (r, c, Val v)) as [w Hw]; [|done|].
  { apply list_elem_of_lookup. exists k. apply writes_lookup.
    exists d. split_and!; [done|by rewrite list_lookup_fmap, Hv|].
    apply lands_at_coords; [by eapply list_elem_of_lookup_2|done]. }
  rewrite Hw in Hcell. simpl in Hcell.
  apply last_write_elem_of, list_elem_of_lookup in Hw as [k' Hk'].
  apply writes_lookup in Hk' as (_ & _ & Hv' & _).
  rewrite list_lookup_fmap in Hv'.
  destruct (data !! k') as [v'|] eqn:Hdk'; simplify_eq/=.
  exists v'. split_and!; [done| |done]. by eapply list_elem_of_lookup_2.
Qed.

Lemma date_grid_no_empty_row_witness :
  ∃ c v, (c < 7)%nat ∧ v ∈ [5; 10] ∧
    grid_cell false
      (mk_ndarray (2%nat, 7%nat)
         [[NaN; NaN; NaN; NaN; Val 5; NaN; NaN];
          [NaN; NaN; NaN; NaN; Val 10; NaN; NaN]]) 1 c = Some (Val v).
Proof.
  apply (date_grid_no_empty_row [mkdate 2021 1 1; mkdate 2021 1 8] [5; 10]
           false float64).
  - reflexivity.
  - vm_compute. reflexivity.
  - vm_compute. lia.
Defined.


(** ** date_grid: the order of the input does not matter *)

Lemma ndarray_ext {A} (a b : ndarray A) :
  wf_ndarray a → wf_ndarray b → shape a = shape b →
  (∀ i j, getitem a i j = getitem b i j) → a = b.
Proof.
  destruct a as [sha rowsa], b as [shb rowsb].
  intros [Hla Hra] [Hlb Hrb] Hsh Hget; simpl in *. subst shb. f_equal.
  apply list_eq. intros i.
  destruct (rowsa !! i) as [ra|] eqn:Ha, (rowsb !! i) as [rb|] eqn:Hb.
  - f_equal. apply list_eq. intros j. specialize (Hget i j).
    unfold getitem in Hget. simpl in Hget. by rewrite Ha, Hb in Hget.
  - apply lookup_lt_Some in Ha. apply lookup_ge_None in Hb. lia.
  - apply lookup_ge_None in Ha. apply lookup_lt_Some in Hb. lia.
  - done.
Qed.

Lemma elem_of_writes {V} dates (vals : list V) r c v :
  (r, c, v) ∈ writes dates vals ↔
  ∃ d, (d, v) ∈ zip dates vals ∧ (week_coord dates d, day_coord d) = (r, c).
Proof.
  rewrite list_elem_of_lookup. setoid_rewrite writes_lookup.
  setoid_rewrite list_elem_of_lookup. setoid_rewrite lookup_zip_with_Some.
  split.
  - intros (k & d & Hd & Hv & Hrc). exists d. split; [|done].
    exists k, d, v. done.
  - intros (d & (k & d' & v' & [= <- <-] & Hd & Hv) & Hrc).
    exists k, d. done.
Qed.

Lemma week_coord_perm dates dates' d :
  dates ≡ₚ dates' → week_coord dates d = week_coord dates' d.
Proof.
  intros Hp. unfold week_coord, weeknum2idx, unique_weeks, sorted_set_tuples.
  by rewrite Hp.
Qed.

Lemma unique_weeks_perm dates dates' :
  dates ≡ₚ dates' → unique_weeks dates = unique_weeks dates'.
Proof. intros Hp. unfold unique_weeks, sorted_set_tuples. by rewrite Hp. Qed.

Lemma writes_functional {V} dates (vals : list V) r c v v' :
  Forall valid_date dates → NoDup dates →
  (r, c, v) ∈ writes dates vals → (r, c, v') ∈ writes dates vals → v = v'.
Proof.
  intros Hvalid Hnd Hv Hv'.
  apply list_elem_of_lookup in Hv as [k Hk].
  apply list_elem_of_lookup in Hv' as [k' Hk'].
  apply writes_lookup in Hk as (d & Hd & Hv & Hrc).
  apply writes_lookup in Hk' as (d' & Hd' & Hv' & Hrc').
  assert (d ∈ dates) as Hin by (by eapply list_elem_of_lookup_2).
  assert (d' ∈ dates) as Hin' by (by eapply list_elem_of_lookup_2).
  rewrite Forall_forall in Hvalid.
  assert (d = d') as <-.
  { eapply (lands_at_inj dates); [by apply Hvalid..| |];
      by apply lands_at_coords. }
  assert (k = k') as <- by (by eapply NoDup_lookup).
  congruence.
Qed.

Lemma last_write_perm {V} dates dates' (vals vals' : list V) r c :
  Forall valid_date dates' → NoDup dates' →
  dates ≡ₚ dates' → zip dates vals ≡ₚ zip dates' vals' →
  last_write (writes dates vals) r c = last_write (writes dates' vals') r c.
Proof.
  intros Hvalid Hnd Hp Hzip.
  assert (∀ v, (r, c, v) ∈ writes dates vals → (r, c, v) ∈ writes dates' vals')
    as Hsub.
  { intros v (d & Hd & Hrc)%elem_of_writes. apply elem_of_writes.
    exists d. rewrite <- Hzip. split; [done|].
    by rewrite <- (week_coord_perm dates dates' d Hp). }
  destruct (last_write (writes dates vals) r c) as [v|] eqn:Hl.
  - apply last_write_elem_of, Hsub in Hl.
    destruct (last_write_is_Some _ r c _ Hl eq_refl) as [v' Hv'].
    rewrite Hv'. f_equal.
    apply last_write_elem_of in Hv'. by eapply writes_functional.
  - destruct (last_write (writes dates' vals') r c) as [v'|] eqn:Hl'; [|done].
    exfalso. apply last_write_elem_of, elem_of_writes in Hl'
      as (d & Hd & Hrc).
    apply (proj1 (last_write_None _ r c) Hl (r, c, v')); [|done].
    apply elem_of_writes. exists d. rewrite Hzip. split; [done|].
    by rewrite (week_coord_perm dates dates' d Hp).
Qed.

(** X7. The order of the input does not matter: two lists of distinct valid
    dates with their parallel values that are permutations of each other as
    lists of (date, value) pairs give the same grid. *)
Theorem date_grid_order_independent {V} dates dates' (data data' : list V)
    flip dt :
  Forall valid_date dates → NoDup dates →
  length data = length dates → length data' = length dates' →
  zip dates data ≡ₚ zip dates' data' →
  date_grid dates data flip dt = date_grid dates' data' flip dt.
Proof.
  intros Hvalid Hnd Hlen Hlen' Hzip.
  assert (dates ≡ₚ dates') as Hp.
  { rewrite <- (fst_zip dates data), <- (fst_zip dates' data') by lia.
    by rewrite Hzip. }
  assert (Forall valid_date dates') as Hvalid' by (by rewrite <- Hp).
  assert (NoDup dates') as Hnd' by (by rewrite <- Hp).
  destruct (decide (dates = [])) as [->|Hne].
  { apply Permutation_nil_l in Hp. subst dates'. reflexivity. }
  assert (dates' ≠ []) as Hne'.
  { intros ->. by apply Permutation_nil_r in Hp. }
  rewrite !date_grid_closed_form by done.
  rewrite !broadcast_to_same by (by rewrite length_fmap). simpl.
  rewrite <- (unique_weeks_perm dates dates' Hp).
  set (init := np_full _ _).
  assert (scatter init (writes dates (Val <$> data))
          = scatter init (writes dates' (Val <$> data'))) as ->; [|done].
  apply ndarray_ext.
  - apply wf_scatter, wf_np_full.
  - apply wf_scatter, wf_np_full.
  - by rewrite !shape_scatter.
  - intros i j.
    destruct (decide ((i < length (unique_weeks dates))%nat ∧ (j < 7)%nat))
      as [[Hi Hj]|Hout].
    + rewrite !getitem_scatter
        by (unfold init; rewrite getitem_np_full by done; by eexists).
      rewrite (last_write_perm dates dates' _ (Val <$> data') i j); [done..|].
      rewrite !zip_with_fmap_r, !(zip_with_zip (λ x z, (x, Val z))).
      by rewrite Hzip.
    + assert (∀ ws, getitem (scatter init ws) i j = None) as Hnone.
      { intros ws. destruct (getitem (scatter init ws) i j) eqn:Hx; [|done].
        exfalso. apply Hout.
        apply getitem_Some in Hx; [|apply wf_scatter, wf_np_full].
        by rewrite shape_scatter in Hx. }
      by rewrite !Hnone.
Qed.

Lemma date_grid_order_independent_witness :
  date_grid [mkdate 2021 1 1; mkdate 2021 1 8] [5; 10] true float64 =
  date_grid [mkdate 2021 1 8; mkdate 2021 1 1] [10; 5] true float64.
Proof.
  apply (date_grid_order_independent
           [mkdate 2021 1 1; mkdate 2021 1 8] [mkdate 2021 1 8; mkdate 2021 1 1]
           [5; 10] [10; 5] true float64).
  - compute_done.
  - compute_done.
  - reflexivity.
  - reflexivity.
  - simpl. apply perm_swap.
Defined.
(** ** The calendar: order *)

Lemma year_length_cases y : year_length y = 365 ∨ year_length y = 366.
Proof. unfold year_length. destruct (is_leap y); auto. Qed.

Lemma days_before_year_step y :
  days_before_year y + 365 ≤ days_before_year (y + 1)
    ≤ days_before_year y + 366.
Proof.
  rewrite days_before_year_succ. destruct (is_leap y); lia.
Qed.

Lemma days_before_month_mono y m1 d1 m2 :
  valid_date (mkdate y m1 d1) → 1 ≤ m2 ≤ 12 → m1 < m2 →
  days_before_month y m1 + d1 ≤ days_before_month y m2.
Proof.
  unfold valid_date; simpl. intros (_ & Hm1 & Hd1) Hm2 Hlt.
  revert Hd1. unfold days_in_month, days_before_month.
  destruct (is_leap y);
  destruct (month_cases m1 Hm1)
    as [->|[->|[->|[->|[->|[->|[->|[->|[->|[->|[->| ->]]]]]]]]]]];
  destruct (month_cases m2 Hm2)
    as [->|[->|[->|[->|[->|[->|[->|[->|[->|[->|[->| ->]]]]]]]]]]];
  simpl; lia.
Qed.

Lemma date_lt_ymd2ord d1 d2 : valid_date d1 → valid_date d2 →
  date_lt d1 d2 →
  ymd2ord (year d1) (month d1) (day d1) < ymd2ord (year d2) (month d2) (day d2).
Proof.
  intros Hv1 Hv2 [Hy|[Hy [Hm|[Hm Hd]]]].
  - pose proof (ymd2ord_range d1 Hv1). pose proof (ymd2ord_range d2 Hv2).
    pose proof (days_before_year_mono (year d1 + 1) (year d2)). lia.
  - destruct d1 as [y1 m1 dd1], d2 as [y2 m2 dd2]; simpl in *. subst y2.
    pose proof (days_before_month_mono y1 m1 dd1 m2 Hv1) as Hle.
    destruct Hv2 as (_ & Hm2 & Hd2); simpl in *.
    unfold ymd2ord. lia.
  - destruct d1 as [y1 m1 dd1], d2 as [y2 m2 dd2]; simpl in *. subst.
    unfold ymd2ord. lia.
Qed.

Lemma date_lt_trichotomy d1 d2 : date_lt d1 d2 ∨ d1 = d2 ∨ date_lt d2 d1.
Proof.
  destruct d1 as [y1 m1 dd1], d2 as [y2 m2 dd2]. unfold date_lt; simpl.
  destruct (Z.lt_trichotomy y1 y2) as [?|[->|?]]; [by auto| |by auto].
  destruct (Z.lt_trichotomy m1 m2) as [?|[->|?]]; [by auto| |by auto 10].
  destruct (Z.lt_trichotomy dd1 dd2) as [?|[->|?]]; [by auto 10|by auto|].
  right. right. right. auto.
Qed.

Lemma date_lt_iff_ymd2ord d1 d2 : valid_date d1 → valid_date d2 →
  date_lt d1 d2 ↔
  ymd2ord (year d1) (month d1) (day d1) < ymd2ord (year d2) (month d2) (day d2).
Proof.
  intros Hv1 Hv2. split; [by apply date_lt_ymd2ord|]. intros Hlt.
  destruct (date_lt_trichotomy d1 d2) as [?|[->|Hgt]]; [done|lia|].
  apply date_lt_ymd2ord in Hgt; [lia|done..].
Qed.

Lemma isoweek1monday_lt y1 y2 :
  y1 < y2 → isoweek1monday y1 + 364 ≤ isoweek1monday y2.
Proof.
  intros Hlt.
  destruct (isoweek1monday_spec y1) as [B1 M1].
  destruct (isoweek1monday_spec y2) as [B2 M2]. simpl in *.
  pose proof (days_before_year_step y1).
  pose proof (days_before_year_mono (y1 + 1) y2).
  zdiv.
Qed.

Lemma isocalendar_year_bounds d : valid_date d →
  isoweek1monday (isocalendar d).1.1 ≤ ymd2ord (year d) (month d) (day d)
    < isoweek1monday ((isocalendar d).1.1 + 1).
Proof.
  intros Hv. pose proof (ymd2ord_range d Hv) as R.
  pose proof (isoweek1monday_spec (year d - 1)) as [Bp _].
  pose proof (isoweek1monday_spec (year d)) as [B0 _].
  pose proof (isoweek1monday_spec (year d + 1)) as [B1 _].
  pose proof (isoweek1monday_spec (year d + 1 + 1)) as [B2 _].
  pose proof (isoweek1monday_lt (year d) (year d + 1)) as L01.
  pose proof (days_before_year_step (year d - 1)) as Sp.
  pose proof (days_before_year_step (year d + 1)) as S1.
  replace (year d - 1 + 1) with (year d) in Sp by lia.
  cbv zeta in *. unfold isocalendar. cbv zeta.
  repeat case_match; simpl.
  - replace (year d - 1 + 1) with (year d) by lia. zdiv.
  - match goal with H : _ && _ = true |- _ =>
      apply andb_true_iff in H as [_ ?%Z.leb_le] end.
    lia.
  - match goal with H : _ && _ = false |- _ =>
      apply andb_false_iff in H as [?%Z.leb_gt|?%Z.leb_gt] end; zdiv.
Qed.

(** ISO triples order like the dates. *)
Lemma isocalendar_lt d1 d2 : valid_date d1 → valid_date d2 →
  date_lt d1 d2 ↔
  tuple_lt (iso_week d1) (iso_week d2) ∨
  (iso_week d1 = iso_week d2 ∧ iso_weekday d1 < iso_weekday d2).
Proof.
  intros Hv1 Hv2. rewrite date_lt_iff_ymd2ord by done.
  pose proof (isocalendar_ord d1 Hv1) as O1.
  pose proof (isocalendar_ord d2 Hv2) as O2.
  pose proof (isocalendar_year_bounds d1 Hv1) as Y1.
  pose proof (isocalendar_year_bounds d2 Hv2) as Y2.
  pose proof (iso_weekday_range d1) as W1.
  pose proof (iso_weekday_range d2) as W2.
  unfold iso_week, iso_weekday, tuple_lt in *.
  destruct (isocalendar d1) as [[y1 w1] wd1], (isocalendar d2) as [[y2 w2] wd2].
  simpl in *.
  destruct (Z.lt_trichotomy y1 y2) as [Hlt|[->|Hgt]].
  - pose proof (isoweek1monday_lt y1 y2 Hlt).
    pose proof (isoweek1monday_lt y1 (y1 + 1)).
    assert (isoweek1monday (y1 + 1) ≤ isoweek1monday y2).
    { destruct (decide (y1 + 1 = y2)) as [->|]; [done|].
      pose proof (isoweek1monday_lt (y1 + 1) y2). lia. }
    split; [by auto|]. intros _. lia.
  - split.
    + intros Hlt. destruct (Z.lt_trichotomy w1 w2) as [?|[->|?]];
        [by auto| |lia]. right. split; [done|lia].
    + intros [[?|[_ ?]]|[[= ->] ?]]; lia.
  - assert (isoweek1monday (y2 + 1) ≤ isoweek1monday y1).
    { destruct (decide (y2 + 1 = y1)) as [->|]; [done|].
      pose proof (isoweek1monday_lt (y2 + 1) y1). lia. }
    split; [lia|]. intros [[?|[? _]]|[[= -> _] _]]; lia.
Qed.

(** ** date_grid: the grid reads in date order *)

Lemma StronglySorted_lookup {A} (R : relation A) l i j x y :
  StronglySorted R l → l !! i = Some x → l !! j = Some y → (i < j)%nat →
  R x y.
Proof.
  intros Hl. revert i j. induction Hl as [|z l Hl IH Hz]; intros i j Hi Hj Hij.
  - done.
  - destruct j as [|j]; [lia|]. simpl in Hj. destruct i as [|i]; simpl in Hi.
    + injection Hi as ->. rewrite Forall_forall in Hz. apply Hz.
      by eapply list_elem_of_lookup_2.
    + apply (IH i j); [done..|lia].
Qed.

Lemma tuple_lt_irrefl k : ¬ tuple_lt k k.
Proof. unfold tuple_lt. lia. Qed.

Lemma tuple_lt_asym k1 k2 : tuple_lt k1 k2 → ¬ tuple_lt k2 k1.
Proof. unfold tuple_lt. lia. Qed.

Lemma unique_weeks_lookup_lt dates r1 r2 k1 k2 :
  unique_weeks dates !! r1 = Some k1 → unique_weeks dates !! r2 = Some k2 →
  (r1 < r2)%nat ↔ tuple_lt k1 k2.
Proof.
  intros H1 H2.
  pose proof (sorted_set_tuples_ascending (iso_week <$> dates)) as Hs.
  fold (unique_weeks dates) in Hs. split.
  - intros Hlt. by eapply (StronglySorted_lookup _ _ r1 r2).
  - intros Hlt. destruct (Nat.lt_trichotomy r1 r2) as [?|[->|Hgt]]; [done|..].
    + assert (k1 = k2) as -> by congruence. by apply tuple_lt_irrefl in Hlt.
    + exfalso. eapply tuple_lt_asym; [exact Hlt|].
      by eapply (StronglySorted_lookup _ _ r2 r1).
Qed.

Lemma lands_at_order dates d1 d2 r1 c1 r2 c2 :
  valid_date d1 → valid_date d2 →
  lands_at dates d1 r1 c1 → lands_at dates d2 r2 c2 →
  date_lt d1 d2 ↔ cell_lt (r1, c1) (r2, c2).
Proof.
  intros Hv1 Hv2 [Hr1 Hc1] [Hr2 Hc2].
  rewrite isocalendar_lt by done. unfold cell_lt. simpl.
  rewrite (unique_weeks_lookup_lt dates r1 r2 _ _ Hr1 Hr2).
  split.
  - intros [?|[Heq ?]]; [by left|]. right. split; [|lia].
    rewrite <- Heq in Hr2.
    eapply NoDup_lookup; [apply NoDup_sorted_set_tuples|done..].
  - intros [?|[-> ?]]; [by left|]. right. split; [congruence|lia].
Qed.

(** X6. The grid reads in date order: in the grid built from a list of valid
    dates with the dates themselves as values, one date is earlier than
    another exactly when its cell comes first in row-major order of (week
    row, weekday column). Earlier weeks are in earlier rows, whatever the
    order of the input. *)
Theorem date_grid_chronological dates flip dt g d1 d2 r1 c1 r2 c2 :
  Forall valid_date dates → date_grid dates dates flip dt = Ok g →
  grid_cell flip g r1 c1 = Some (Val d1) →
  grid_cell flip g r2 c2 = Some (Val d2) →
  date_lt d1 d2 ↔ cell_lt (r1, c1) (r2, c2).
Proof.
  intros Hvalid Hg H1 H2.
  assert (dates ≠ []) as Hne by (by intros ->).
  apply (date_grid_cell_origin dates dates flip dt g _ _ _ Hne eq_refl Hg)
    in H1 as (k1 & d1' & Hd1 & Hd1' & Hland1).
  apply (date_grid_cell_origin dates dates flip dt g _ _ _ Hne eq_refl Hg)
    in H2 as (k2 & d2' & Hd2 & Hd2' & Hland2).
  assert (d1' = d1) as -> by congruence.
  assert (d2' = d2) as -> by congruence.
  rewrite Forall_forall in Hvalid.
  eapply lands_at_order; [| |done..]; apply Hvalid;
    by eapply list_elem_of_lookup_2.
Qed.

Lemma date_grid_chronological_witness :
  date_lt (mkdate 2020 1 1) (mkdate 2018 12 31) ↔ cell_lt (1%nat, 2%nat) (0%nat, 0%nat).
Proof.
  apply (date_grid_chronological
           [mkdate 2020 1 1; mkdate 2018 12 31; mkdate 2019 1 1] false object
           (mk_ndarray (2%nat, 7%nat)
              [[Val (mkdate 2018 12 31); Val (mkdate 2019 1 1);
                PyNone; PyNone; PyNone; PyNone; PyNone];
               [PyNone; PyNone; Val (mkdate 2020 1 1);
                PyNone; PyNone; PyNone; PyNone]])).
  - compute_done.
  - vm_compute. reflexivity.
  - reflexivity.
  - reflexivity.
Defined.

(** ** The label functions: errors and framing *)

(** X8. None of the label functions that look at the dates accepts an empty
    date list: [add_date_label], [add_month_label] and [add_year_label] all
    raise the [IndexError] of [date_grid], whatever the axes and the
    orientation. *)
Theorem label_functions_empty_dates ax flip :
  add_date_label ax [] flip = Raise IndexError ∧
  add_month_label ax [] flip = Raise IndexError ∧
  add_year_label ax [] flip = Raise IndexError.
Proof. split_and!; reflexivity. Qed.






(** ** Label positions: helper facts *)

Lemma odict_get_elem_of {K W} `{EqDecision K} (d : list (K * W)) k v :
  NoDup d.*1 → (k, v) ∈ d → odict_get d k = Some v.
Proof.
  intros Hnd (d1 & d2 & ->)%list_elem_of_split.
  apply odict_get_app_fresh.
  rewrite fmap_app, fmap_cons in Hnd. simpl in Hnd.
  apply NoDup_app in Hnd as (_ & Hnd & _). intros Hin.
  apply (Hnd k Hin). by left.
Qed.

Lemma group_row_lt {G} (tag : date → G) dates v r :
  group_row tag dates v r → (r < length (unique_weeks dates))%nat.
Proof. intros (d & _ & _ & Hr). by eapply lookup_lt_Some. Qed.

Lemma month_locs_entries dates flip g :
  dates ≠ [] → Forall valid_date dates →
  date_grid dates (str_tuple ∘ month_year <$> dates) flip object = Ok g →
  ∃ locs,
    month_locs g (sorted_set_tuples (month_year <$> dates)) flip = Ok locs ∧
    locs.*1 = sorted_set_tuples (month_year <$> dates) ∧
    Forall (λ kv, ∃ lo hi,
      least (group_row month_year dates kv.1) lo ∧
      greatest (group_row month_year dates kv.1) hi ∧
      kv.2 = (Z.of_nat (hi + lo) # 2)%Q) locs.
Proof.
  intros Hne Hvalid Hg.
  destruct (for_each_odict
    (λ ym pos, ∃ lo hi, least (group_row month_year dates ym) lo ∧
       greatest (group_row month_year dates ym) hi ∧
       pos = (Z.of_nat (hi + lo) # 2)%Q)
    (λ month_locs month,
       let '(yy, xx) := nonzero (eq_mask g (str_tuple month)) in
       hi ← np_max (if flip then xx else yy);
       lo ← np_min (if flip then xx else yy);
       Ok (odict_set month (Z.of_nat (hi + lo) # 2)%Q month_locs))
    (sorted_set_tuples (month_year <$> dates)) [])
    as (locs & Hloop & Hkeys & Hlocs).
  - apply NoDup_sorted_set_tuples.
  - intros k _ Hk. by apply elem_of_nil in Hk.
  - intros ym acc Hym. apply (proj1 (elem_of_sorted_set_tuples _ _)) in Hym.
    destruct (weeks_axis_extremes (str_tuple ∘ month_year) dates flip object g
                (str_tuple ym) Hne Hvalid Hg)
      as (hi & lo & Hhi & Hlo & Hgreatest & Hleast).
    { rewrite list_fmap_compose. by apply list_elem_of_fmap_2. }
    unfold weeks_axis, nonzero in Hhi, Hlo. simpl in Hhi, Hlo.
    unfold nonzero.
    replace (if flip then snd <$> nonzero_coords (eq_mask g (str_tuple ym))
             else fst <$> nonzero_coords (eq_mask g (str_tuple ym)))
      with (if flip then (nonzero_coords (eq_mask g (str_tuple ym))).*2
            else (nonzero_coords (eq_mask g (str_tuple ym))).*1) by done.
    rewrite Hhi. simpl. rewrite Hlo. simpl.
    eexists. split; [done|]. exists lo, hi. split_and!; [| |done].
    + destruct Hleast as [Hin Hle]. split.
      * by apply (group_row_inj str_tuple month_year).
      * intros r Hr. by apply Hle, (group_row_inj str_tuple month_year).
    + destruct Hgreatest as [Hin Hge]. split.
      * by apply (group_row_inj str_tuple month_year).
      * intros r Hr. by apply Hge, (group_row_inj str_tuple month_year).
  - exists locs. split_and!; [done..|].
    apply Forall_forall. intros [ym pos] Hin.
    assert (ym ∈ sorted_set_tuples (month_year <$> dates)) as Hym.
    { rewrite <- Hkeys. by apply (list_elem_of_fmap_2 fst _ (ym, pos)). }
    destruct (Hlocs ym Hym) as (pos' & Hget & HP). simpl in Hget.
    rewrite (odict_get_elem_of locs ym pos) in Hget; [|..|done].
    + by injection Hget as <-.
    + rewrite Hkeys. apply NoDup_sorted_set_tuples.
Qed.

Lemma add_month_label_entries ax dates flip :
  dates ≠ [] → Forall valid_date dates →
  ∃ locs,
    add_month_label ax dates flip =
      Ok (ax ++
          if flip
          then [ax_set_xticks locs.*2;
                ax_set_xticklabels ((λ x, month_abbr x.1.2) <$> locs)]
          else [ax_set_yticks locs.*2;
                ax_set_yticklabels ((λ x, month_abbr x.1.2) <$> locs)]) ∧
    locs.*1 = sorted_set_tuples (month_year <$> dates) ∧
    Forall (λ kv, ∃ lo hi,
      least (group_row month_year dates kv.1) lo ∧
      greatest (group_row month_year dates kv.1) hi ∧
      kv.2 = (Z.of_nat (hi + lo) # 2)%Q) locs.
Proof.
  intros Hne Hvalid. unfold add_month_label.
  change (λ d, (year d, month d)) with month_year.
  rewrite <- list_fmap_compose.
  destruct (date_grid_total dates ((str_tuple ∘ month_year) <$> dates) flip
              object Hne) as [g Hg]; [apply length_fmap|].
  rewrite Hg. simpl.
  destruct (month_locs_entries dates flip g Hne Hvalid Hg)
    as (locs & -> & Hkeys & Hlocs). simpl.
  exists locs. split_and!; [by destruct flip|done..].
Qed.

Lemma year_locs_entries dates flip g :
  dates ≠ [] → Forall valid_date dates →
  date_grid dates (year <$> dates) flip float64 = Ok g →
  ∃ locs,
    year_locs g (sorted_set_ints (year <$> dates)) flip = Ok locs ∧
    locs.*1 = sorted_set_ints (year <$> dates) ∧
    Forall (λ kv, ∃ lo hi,
      least (group_row year dates kv.1) lo ∧
      greatest (group_row year dates kv.1) hi ∧
      kv.2 = (Z.of_nat (hi + 1 + lo) # 2)%Q) locs.
Proof.
  intros Hne Hvalid Hg.
  destruct (for_each_odict
    (λ y pos, ∃ lo hi, least (group_row year dates y) lo ∧
       greatest (group_row year dates y) hi ∧
       pos = (Z.of_nat (hi + 1 + lo) # 2)%Q)
    (λ year_locs year,
       let '(yy, xx) := nonzero (eq_mask g year) in
       hi ← np_max (if flip then xx else yy);
       lo ← np_min (if flip then xx else yy);
       Ok (odict_set year (Z.of_nat (hi + 1 + lo) # 2)%Q year_locs))
    (sorted_set_ints (year <$> dates)) [])
    as (locs & Hloop & Hkeys & Hlocs).
  - apply NoDup_sorted_set_ints.
  - intros k _ Hk. by apply elem_of_nil in Hk.
  - intros y acc Hy. apply (proj1 (elem_of_sorted_set_ints _ _)) in Hy.
    destruct (weeks_axis_extremes year dates flip float64 g y Hne Hvalid Hg Hy)
      as (hi & lo & Hhi & Hlo & Hgreatest & Hleast).
    unfold weeks_axis, nonzero in Hhi, Hlo. simpl in Hhi, Hlo.
    unfold nonzero.
    replace (if flip then snd <$> nonzero_coords (eq_mask g y)
             else fst <$> nonzero_coords (eq_mask g y))
      with (if flip then (nonzero_coords (eq_mask g y)).*2
            else (nonzero_coords (eq_mask g y)).*1) by done.
    rewrite Hhi. simpl. rewrite Hlo. simpl.
    eexists. split; [done|]. by exists lo, hi.
  - exists locs. split_and!; [done..|].
    apply Forall_forall. intros [y pos] Hin.
    assert (y ∈ sorted_set_ints (year <$> dates)) as Hy.
    { rewrite <- Hkeys. by apply (list_elem_of_fmap_2 fst _ (y, pos)). }
    destruct (Hlocs y Hy) as (pos' & Hget & HP). simpl in Hget.
    rewrite (odict_get_elem_of locs y pos) in Hget; [|..|done].
    + by injection Hget as <-.
    + rewrite Hkeys. apply NoDup_sorted_set_ints.
Qed.

(** ** Month ticks *)

(** X10. For a non-empty list of valid dates [add_month_label] sets as many
    ticks as labels, one per distinct (year, month) of the input; the labels
    are the month abbreviations in calendar order, and every tick lies on
    the grid, between week row 0 and the last week row. *)
Theorem add_month_label_ticks ax dates flip :
  dates ≠ [] → Forall valid_date dates →
  ∃ ticks labels,
    add_month_label ax dates flip =
      Ok (ax ++ if flip
                then [ax_set_xticks ticks; ax_set_xticklabels labels]
                else [ax_set_yticks ticks; ax_set_yticklabels labels]) ∧
    length ticks = length labels ∧
    length ticks = length (remove_dups (month_year <$> dates)) ∧
    labels = (λ ym, month_abbr ym.2)
               <$> sorted_set_tuples (month_year <$> dates) ∧
    Forall (λ p, (0 <= p)%Q ∧
       (p <= inject_Z (Z.of_nat (length (unique_weeks dates)) - 1))%Q) ticks.
Proof.
  intros Hne Hvalid.
  destruct (add_month_label_entries ax dates flip Hne Hvalid)
    as (locs & Hrun & Hkeys & Hlocs).
  exists locs.*2, ((λ x, month_abbr x.1.2) <$> locs).
  split_and!; [done|by rewrite !length_fmap| | |].
  - rewrite <- sorted_set_tuples_perm, <- Hkeys. by rewrite !length_fmap.
  - rewrite <- Hkeys, <- list_fmap_compose. done.
  - apply Forall_fmap. eapply Forall_impl; [exact Hlocs|].
    intros [ym pos] (lo & hi & [Hlo _] & [Hhi _] & Hpos). simpl in *.
    apply group_row_lt in Hlo, Hhi. subst pos.
    unfold Qle. simpl. lia.
Qed.

Lemma add_month_label_ticks_witness :
  let dates := [mkdate 2021 1 1; mkdate 2021 1 8; mkdate 2021 2 8] in
  ∃ ticks labels,
    add_month_label [] dates true =
      Ok [ax_set_xticks ticks; ax_set_xticklabels labels] ∧
    length ticks = length labels ∧
    length ticks = length (remove_dups (month_year <$> dates)) ∧
    labels = (λ ym, month_abbr ym.2)
               <$> sorted_set_tuples (month_year <$> dates) ∧
    Forall (λ p, (0 <= p)%Q ∧
       (p <= inject_Z (Z.of_nat (length (unique_weeks dates)) - 1))%Q) ticks.
Proof.
  apply (add_month_label_ticks []
           [mkdate 2021 1 1; mkdate 2021 1 8; mkdate 2021 2 8] true).
  - done.
  - compute_done.
Defined.

Lemma month_year_lt_date_lt d1 d2 :
  tuple_lt (month_year d1) (month_year d2) → date_lt d1 d2.
Proof. unfold tuple_lt, month_year, date_lt. simpl. lia. Qed.

Lemma group_row_month_le dates ym1 ym2 r1 r2 :
  Forall valid_date dates → tuple_lt ym1 ym2 →
  group_row month_year dates ym1 r1 → group_row month_year dates ym2 r2 →
  (r1 ≤ r2)%nat.
Proof.
  intros Hvalid Hlt (d1 & Hd1 & <- & Hr1) (d2 & Hd2 & <- & Hr2).
  rewrite Forall_forall in Hvalid.
  assert (lands_at dates d1 r1 (day_coord d1)) as H1.
  { split; [done|]. unfold day_coord. pose proof (iso_weekday_range d1). lia. }
  assert (lands_at dates d2 r2 (day_coord d2)) as H2.
  { split; [done|]. unfold day_coord. pose proof (iso_weekday_range d2). lia. }
  apply month_year_lt_date_lt in Hlt.
  apply (lands_at_order dates d1 d2 _ _ _ _ (Hvalid _ Hd1) (Hvalid _ Hd2) H1 H2)
    in Hlt.
  unfold cell_lt in Hlt. simpl in Hlt. lia.
Qed.

(** X11. The month ticks run with the calendar: for valid dates, the ticks
    that [add_month_label] sets are in non-decreasing order along the weeks
    axis, in step with their labels, which are in ascending (year, month)
    order. Two months that only have dates in one shared week get the same
    position. *)
Theorem add_month_label_ticks_ordered ax dates flip :
  dates ≠ [] → Forall valid_date dates →
  ∃ ticks labels,
    add_month_label ax dates flip =
      Ok (ax ++ if flip
                then [ax_set_xticks ticks; ax_set_xticklabels labels]
                else [ax_set_yticks ticks; ax_set_yticklabels labels]) ∧
    ∀ i j p q, (i < j)%nat → ticks !! i = Some p → ticks !! j = Some q →
      (p <= q)%Q.
Proof.
  intros Hne Hvalid.
  destruct (add_month_label_entries ax dates flip Hne Hvalid)
    as (locs & Hrun & Hkeys & Hlocs).
  exists locs.*2, ((λ x, month_abbr x.1.2) <$> locs). split; [done|].
  intros i j p q Hij Hi Hj.
  rewrite list_lookup_fmap in Hi, Hj.
  destruct (locs !! i) as [[ym1 p1]|] eqn:Hli; simplify_eq/=.
  destruct (locs !! j) as [[ym2 q1]|] eqn:Hlj; simplify_eq/=.
  assert (tuple_lt ym1 ym2) as Hlt.
  { apply (StronglySorted_lookup tuple_lt (locs.*1) i j).
    - rewrite Hkeys. apply sorted_set_tuples_ascending.
    - by rewrite list_lookup_fmap, Hli.
    - by rewrite list_lookup_fmap, Hlj.
    - done. }
  rewrite Forall_forall in Hlocs.
  destruct (Hlocs (ym1, p) (list_elem_of_lookup_2 _ _ _ Hli))
    as (lo1 & hi1 & [Hlo1 _] & [Hhi1 _] & Hp).
  destruct (Hlocs (ym2, q) (list_elem_of_lookup_2 _ _ _ Hlj))
    as (lo2 & hi2 & [Hlo2 _] & [Hhi2 _] & Hq).
  simpl in *. subst p q.
  pose proof (group_row_month_le dates ym1 ym2 lo1 lo2 Hvalid Hlt Hlo1 Hlo2).
  pose proof (group_row_month_le dates ym1 ym2 hi1 hi2 Hvalid Hlt Hhi1 Hhi2).
  unfold Qle. simpl. lia.
Qed.

Lemma add_month_label_ticks_ordered_witness :
  let dates := [mkdate 2021 2 8; mkdate 2021 1 1; mkdate 2021 1 8] in
  ∃ ticks labels,
    add_month_label [] dates false =
      Ok [ax_set_yticks ticks; ax_set_yticklabels labels] ∧
    ∀ i j p q, (i < j)%nat → ticks !! i = Some p → ticks !! j = Some q →
      (p <= q)%Q.
Proof.
  apply (add_month_label_ticks_ordered []
           [mkdate 2021 2 8; mkdate 2021 1 1; mkdate 2021 1 8] false).
  - done.
  - compute_done.
Defined.

(** ** Year labels *)

Lemma add_year_label_entries ax dates flip :
  dates ≠ [] → Forall valid_date dates →
  let n := inject_Z (Z.of_nat (length (unique_weeks dates))) in
  ∃ locs,
    add_year_label ax dates flip =
      Ok (ax ++
          ((λ yl, if flip
                  then ax_annotate yl.1 (yl.2 / n, 1)%Q (0, 10) None
                  else ax_annotate yl.1 (0, 1 - yl.2 / n)%Q (-40, 0) (Some 90))
           <$> locs)) ∧
    locs.*1 = sorted_set_ints (year <$> dates) ∧
    Forall (λ kv, ∃ lo hi,
      least (group_row year dates kv.1) lo ∧
      greatest (group_row year dates kv.1) hi ∧
      kv.2 = (Z.of_nat (hi + 1 + lo) # 2)%Q) locs.
Proof.
  intros Hne Hvalid n. unfold add_year_label.
  destruct (date_grid_total dates (year <$> dates) flip float64 Hne)
    as [g Hg]; [apply length_fmap|].
  rewrite Hg. simpl.
  destruct (date_grid_wf dates _ flip float64 g Hne Hg) as [_ Hsh].
  destruct (year_locs_entries dates flip g Hne Hvalid Hg)
    as (locs & -> & Hkeys & Hlocs). simpl.
  exists locs. split_and!; [|done..].
  destruct flip.
  - rewrite (for_each_append (λ yl, ax_annotate yl.1
      (yl.2 / inject_Z (Z.of_nat (shape g).2), 1)%Q (0, 10) None)).
    by rewrite Hsh.
  - rewrite (for_each_append (λ yl, ax_annotate yl.1
      (0, 1 - yl.2 / inject_Z (Z.of_nat (shape g).1))%Q (-40, 0)
      (Some 90))).
    by rewrite Hsh.
Qed.

Lemma year_fraction_inside (lo hi n : nat) :
  (lo ≤ hi)%nat → (hi < n)%nat →
  (0 < (Z.of_nat (hi + 1 + lo) # 2) / inject_Z (Z.of_nat n))%Q ∧
  ((Z.of_nat (hi + 1 + lo) # 2) / inject_Z (Z.of_nat n) < 1)%Q.
Proof.
  intros Hle Hlt.
  assert (0 < inject_Z (Z.of_nat n))%Q as Hn.
  { unfold Qlt. simpl. lia. }
  split.
  - apply Qlt_shift_div_l; [done|]. unfold Qlt. simpl. lia.
  - apply Qlt_shift_div_r; [done|]. unfold Qlt. simpl. lia.
Qed.

(** X12. Year labels stay inside the axes: for a non-empty list of valid
    dates [add_year_label] annotates one label per distinct year, and the
    axes fraction it computes along the weeks axis is strictly between 0 and
    1; it is the x fraction at the top edge when flipped, and is counted
    down from the top along the left edge otherwise. *)
Theorem add_year_label_inside_axes ax dates flip :
  dates ≠ [] → Forall valid_date dates →
  ∃ calls,
    add_year_label ax dates flip = Ok (ax ++ calls) ∧
    length calls = length (remove_dups (year <$> dates)) ∧
    Forall (λ c, ∃ y f, (0 < f)%Q ∧ (f < 1)%Q ∧
      c = if flip then ax_annotate y (f, 1)%Q (0, 10) None
          else ax_annotate y (0, 1 - f)%Q (-40, 0) (Some 90)) calls.
Proof.
  intros Hne Hvalid.
  destruct (add_year_label_entries ax dates flip Hne Hvalid)
    as (locs & Hrun & Hkeys & Hlocs). cbv zeta in Hrun.
  eexists. split; [exact Hrun|]. split.
  - rewrite length_fmap, <- sorted_set_ints_perm, <- Hkeys.
    by rewrite length_fmap.
  - apply Forall_fmap. eapply Forall_impl; [exact Hlocs|].
    intros [y pos] (lo & hi & [Hlo Hlo_le] & [Hhi _] & Hpos). simpl in *.
    subst pos. exists y. eexists.
    split_and!; [..|by destruct flip];
      apply year_fraction_inside; [by apply Hlo_le|by eapply group_row_lt
                                  |by apply Hlo_le|by eapply group_row_lt].
Qed.

Lemma add_year_label_inside_axes_witness :
  let dates := [mkdate 2020 12 7; mkdate 2021 1 4; mkdate 2021 1 18] in
  ∃ calls,
    add_year_label [] dates false = Ok calls ∧
    length calls = length (remove_dups (year <$> dates)) ∧
    Forall (λ c, ∃ y f, (0 < f)%Q ∧ (f < 1)%Q ∧
      c = ax_annotate y (0, 1 - f)%Q (-40, 0) (Some 90)) calls.
Proof.
  apply (add_year_label_inside_axes []
           [mkdate 2020 12 7; mkdate 2021 1 4; mkdate 2021 1 18] false).
  - done.
  - compute_done.
Defined.

Lemma sorted_set_ints_constant (l : list Z) y :
  l ≠ [] → Forall (λ x, x = y) l → sorted_set_ints l = [y].
Proof.
  intros Hne Hall.
  pose proof (NoDup_sorted_set_ints l) as Hnd.
  assert (∀ x, x ∈ sorted_set_ints l → x = y) as Hy.
  { intros x Hx. apply (proj1 (elem_of_sorted_set_ints _ _)) in Hx.
    rewrite Forall_forall in Hall. auto. }
  assert (y ∈ sorted_set_ints l) as Hin.
  { apply elem_of_sorted_set_ints. destruct l as [|x l]; [done|].
    apply Forall_cons in Hall as [-> _]. by left. }
  destruct (sorted_set_ints l) as [|a [|b s]].
  - by apply elem_of_nil in Hin.
  - by rewrite (Hy a) by (by left).
  - exfalso. apply NoDup_cons in Hnd as [Hnotin _]. apply Hnotin.
    rewrite (Hy a), (Hy b); [by left|right; by left|by left].
Qed.

(** X13. Dates of a single calendar year give one year label, at the middle
    of the weeks axis: the axes fraction is 1/2 whatever the number of week
    rows. *)
Theorem add_year_label_single_year ax dates flip y :
  dates ≠ [] → Forall valid_date dates → Forall (λ d, year d = y) dates →
  ∃ f, (f == 1 # 2)%Q ∧
    add_year_label ax dates flip =
      Ok (ax ++ [if flip then ax_annotate y (f, 1)%Q (0, 10) None
                 else ax_annotate y (0, 1 - f)%Q (-40, 0) (Some 90)]).
Proof.
  intros Hne Hvalid Hyear.
  destruct (add_year_label_entries ax dates flip Hne Hvalid)
    as (locs & Hrun & Hkeys & Hlocs). cbv zeta in Hrun.
  rewrite (sorted_set_ints_constant _ y) in Hkeys;
    [|by destruct dates|by apply Forall_fmap].
  destruct locs as [|[y' pos] [|??]]; simplify_eq/=.
  apply Forall_inv in Hlocs as (lo & hi & [Hlo Hlo_le] & [Hhi Hhi_ge] & Hpos).
  simpl in *. subst pos.
  set (n := length (unique_weeks dates)) in *.
  assert (∀ r, (r < n)%nat → group_row year dates y r) as Hall.
  { intros r Hr. destruct (lookup_lt_is_Some_2 _ _ Hr) as [wk Hwk].
    assert (wk ∈ unique_weeks dates) as Hin
      by (by eapply list_elem_of_lookup_2).
    apply (proj1 (elem_of_sorted_set_tuples _ _)) in Hin.
    apply list_elem_of_fmap in Hin as (d & -> & Hd).
    exists d. split_and!; [done| |done].
    rewrite Forall_forall in Hyear. by apply Hyear. }
  assert (0 < n)%nat as Hn.
  { apply group_row_lt in Hlo. unfold n. lia. }
  assert (lo = 0%nat) as ->.
  { specialize (Hlo_le 0%nat (Hall 0%nat Hn)). lia. }
  assert (hi = (n - 1)%nat) as ->.
  { assert (n - 1 < n)%nat as Hn1 by lia.
    specialize (Hhi_ge (n - 1)%nat (Hall _ Hn1)).
    apply group_row_lt in Hhi. fold n in Hhi. lia. }
  eexists. split; [|exact Hrun].
  unfold Qeq, Qdiv, Qmult, Qinv. simpl.
  destruct (Z.of_nat n) as [|p|p] eqn:Hp; [lia| |lia]. simpl.
  assert (Z.of_nat (n - 1 + 1 + 0) = Z.pos p) as -> by lia. lia.
Qed.

Lemma add_year_label_single_year_witness :
  ∃ f, (f == 1 # 2)%Q ∧
    add_year_label [] [mkdate 2021 1 4; mkdate 2021 3 1; mkdate 2021 2 8] true =
      Ok [ax_annotate 2021 (f, 1)%Q (0, 10) None].
Proof.
  apply (add_year_label_single_year []
           [mkdate 2021 1 4; mkdate 2021 3 1; mkdate 2021 2 8] true 2021).
  - done.
  - compute_done.
  - compute_done.
Defined.

(** ** Weekday labels *)

Example weekheader_1 : weekheader 1 = "M T W T F S S"%string.
Proof. reflexivity. Qed.

Example str_split_examples :
  str_split " " "M T W" = ["M"; "T"; "W"]%string ∧
  str_split " " "" = [""]%string ∧
  str_split " " "a  b " = ["a"; ""; "b"; ""]%string.
Proof. split_and!; reflexivity. Qed.

Lemma iso_weekday_weekday d : iso_weekday d - 1 = weekday d.
Proof.
  unfold iso_weekday, weekday, isocalendar. cbv zeta.
  pose proof (isoweek1monday_spec (year d)) as [_ M0].
  pose proof (isoweek1monday_spec (year d - 1)) as [_ Mp].
  repeat case_match; simpl; zdiv.
Qed.

(** X14. The weekday labels line up with the grid: [add_weekday_label] sets
    seven ticks and seven labels, on the y axis when flipped and on the x
    axis (moved to the top) otherwise; the tick over the weekday column of
    any date is at the centre of that column, where [add_date_label] would
    write, and its label is the first letter of that date's weekday name. *)
Theorem add_weekday_label_aligned {V} (ax : list (plot_call V)) flip d :
  ∃ ticks labels,
    add_weekday_label ax flip =
      (ax ++ if flip
             then [ax_tick_params "y" "major" (Some 8) None;
                   ax_label (ax_set_yticks ticks);
                   ax_label (ax_set_yticklabels labels)]
             else [ax_tick_params "x" "major" (Some 4) None;
                   ax_label (ax_set_xticks ticks);
                   ax_label (ax_set_xticklabels labels);
                   ax_xaxis_tick_top]) ∧
    length ticks = 7%nat ∧ length labels = 7%nat ∧
    ticks !! day_coord d = Some (inject_Z (Z.of_nat (day_coord d)) + half)%Q ∧
    labels !! day_coord d = Some (String.substring 0 1 (day_abbr (weekday d))).
Proof.
  exists weekday_ticks, (str_split " " (weekheader 1)).
  split_and!; [by destruct flip|done|done|..].
  - pose proof (day_coord_lt d).
    unfold weekday_ticks. rewrite list_lookup_fmap, lookup_seqZ_lt by lia.
    done.
  - assert (weekday d = Z.of_nat (day_coord d)) as ->.
    { rewrite <- iso_weekday_weekday. unfold day_coord.
      pose proof (iso_weekday_range d). lia. }
    pose proof (day_coord_lt d).
    destruct (day_coord d) as [|[|[|[|[|[|[|?]]]]]]]; [done..|lia].
Qed.

(** ** cal_heatmap *)


Lemma add_date_label_nonempty ax dates flip :
  dates ≠ [] → add_date_label ax dates flip = Raise TypeError.
Proof.
  intros Hne. unfold add_date_label.
  destruct (date_grid_total dates (day <$> dates) flip float64 Hne)
    as [g Hg]; [apply length_fmap|].
  rewrite Hg. simpl.
  destruct (date_grid_wf dates _ flip float64 g Hne Hg) as [_ ->].
  assert (∃ n, length (unique_weeks dates) = S n) as [n ->].
  { destruct dates as [|d dates]; [done|].
    pose proof (week_coord_lt (d :: dates) d) as Hlt.
    destruct (length (unique_weeks (d :: dates))); [|eauto].
    exfalso. apply (Nat.nlt_0_r (week_coord (d :: dates) d)), Hlt. by left. }
  by destruct flip.
Qed.


Lemma optional_label_Returned {V} (b : bool) f (ax ax' : list (plot_call V)) :
  (if b then on_axes f ax else Returned ax) = Returned ax' →
  ∃ calls, ax' = ax ++ calls.
Proof.
  destruct b.
  - unfold on_axes. destruct (f []) as [calls|e]; [|done].
    intros [= <-]. eauto.
  - intros [= <-]. exists []. by rewrite app_nil_r.
Qed.

Lemma optional_weekday_label {V} (b : bool) (ax : list (plot_call V)) flip :
  ∃ calls, (if b then add_weekday_label ax flip else ax) = ax ++ calls.
Proof.
  destruct b; [|exists []; by rewrite app_nil_r].
  unfold add_weekday_label. destruct flip; eauto.
Qed.

Lemma cal_heatmap_overlays {V} (start ax' : list (plot_call V)) dates flip
    (weekday_label month_label year_label : bool) :
  @eq (outcome (list (plot_call V)))
   (ax ← (if month_label
         then on_axes (λ a, add_month_label a dates flip)
                (if weekday_label then add_weekday_label start flip else start)
         else Returned
                (if weekday_label then add_weekday_label start flip else start));
   ax ← (if year_label then on_axes (λ a, add_year_label a dates flip) ax
         else Returned ax);
   Returned (ax ++ [ax_tick_params "both" "both" None (Some 0)]))
    (Returned ax') →
  ∃ calls,
    ax' = start ++ calls ++ [ax_tick_params "both" "both" None (Some 0)].
Proof.
  destruct (optional_weekday_label weekday_label start flip) as [kw ->].
  intros Hrun.
  destruct (if month_label then _ else _) as [ax1|e] eqn:Hm; [|done].
  apply optional_label_Returned in Hm as [km ->]. simpl in Hrun.
  destruct (if year_label then _ else _) as [ax2|e] eqn:Hy; [|done].
  apply optional_label_Returned in Hy as [ky ->]. simpl in Hrun.
  injection Hrun as <-. exists (kw ++ km ++ ky).
  by rewrite <- !app_assoc.
Qed.

(** X17. What [cal_heatmap] returns: it returns only when no date labels
    are asked for and no colorbar on axes passed in, and then the returned
    axes are the ones passed in (or the new ones), with every earlier call
    kept in place, followed by the mesh, the inverted y axis and the equal
    aspect, then the overlays, and last the call that hides the tick
    marks. *)
Theorem cal_heatmap_returned {V} (cal : ndarray (cell V)) dates flip cmap
    colorbar date_label weekday_label month_label year_label ax ax' :
  cal_heatmap cal dates flip cmap colorbar date_label weekday_label
    month_label year_label ax = Returned ax' →
  date_label = false ∧ (colorbar = true → ax = None) ∧
  ∃ calls,
    ax' = default [plt_subplots (if flip then (10, 5) else (5, 10)) 100] ax
          ++ [ax_pcolormesh cal cmap; ax_invert_yaxis; ax_set_aspect "equal"]
          ++ calls ++ [ax_tick_params "both" "both" None (Some 0)].
Proof.
  intros Hrun. destruct date_label.
  { unfold cal_heatmap in Hrun.
    destruct ax, colorbar; simpl in Hrun; try done;
      unfold on_axes in Hrun;
      by destruct (add_date_label [] dates flip) as [calls|e] eqn:Hd;
        [destruct dates; [done|by rewrite add_date_label_nonempty in Hd]|]. }
  split; [done|]. split.
  { intros ->. by destruct ax. }
  unfold cal_heatmap in Hrun.
  destruct ax as [ax|], colorbar; simpl in Hrun; try done.
  - apply cal_heatmap_overlays in Hrun as [calls ->].
    exists calls. by rewrite <- !app_assoc.
  - apply cal_heatmap_overlays in Hrun as [calls ->].
    by exists (fig_colorbar :: calls).
  - apply cal_heatmap_overlays in Hrun as [calls ->].
    by exists calls.
Qed.

Lemma cal_heatmap_returned_witness :
  let cal := mk_ndarray (1%nat, 7%nat)
               [[Val 5; NaN; NaN; NaN; NaN; NaN; NaN]] in
  ∃ calls,
    [plt_subplots (5, 10) 100; ax_pcolormesh cal "Greens"; ax_invert_yaxis;
     ax_set_aspect "equal"; fig_colorbar;
     ax_tick_params "both" "both" None (Some 0)] =
    default [plt_subplots (5, 10) 100] None
      ++ [ax_pcolormesh cal "Greens"; ax_invert_yaxis; ax_set_aspect "equal"]
      ++ calls ++ [ax_tick_params "both" "both" None (Some 0)].
Proof.
  apply (cal_heatmap_returned
           (mk_ndarray (1%nat, 7%nat) [[Val 5; NaN; NaN; NaN; NaN; NaN; NaN]])
           [mkdate 2021 1 4] false "Greens" true false false false false None).
  reflexivity.
Defined.








(** ** From a cell back to its date *)

(** X20. The layout can be read backwards: in the grid built from valid
    dates with the dates themselves as values, the date in week row [r] and
    weekday column [c] is the day whose ordinal is the Monday that starts
    ISO week 1 of [y], plus [w - 1] weeks, plus [c] days, where [(y, w)] is
    the [r]-th of the sorted distinct (ISO year, ISO week) pairs. *)
Theorem date_grid_cell_to_date dates flip dt g r c d y w :
  Forall valid_date dates → date_grid dates dates flip dt = Ok g →
  grid_cell flip g r c = Some (Val d) →
  unique_weeks dates !! r = Some (y, w) →
  ymd2ord (year d) (month d) (day d) =
    isoweek1monday y + 7 * (w - 1) + Z.of_nat c.
Proof.
  intros Hvalid Hg Hcell Hr.
  assert (dates ≠ []) as Hne by (by intros ->).
  apply (date_grid_cell_origin dates dates flip dt g _ _ _ Hne eq_refl Hg)
    in Hcell as (k & d' & Hd & Hd' & [Hr' Hc]).
  assert (d' = d) as -> by congruence.
  rewrite Forall_forall in Hvalid.
  rewrite (isocalendar_ord d) by (by eapply Hvalid, list_elem_of_lookup_2).
  unfold iso_week, iso_weekday in *.
  assert ((isocalendar d).1 = (y, w)) as Hyw by congruence.
  destruct (isocalendar d) as [[y' w'] wd]; simpl in *.
  injection Hyw as -> ->. lia.
Qed.

Lemma date_grid_cell_to_date_witness :
  ymd2ord 2019 1 1 = isoweek1monday 2019 + 7 * (1 - 1) + Z.of_nat 1.
Proof.
  apply (date_grid_cell_to_date
           [mkdate 2018 12 31; mkdate 2019 1 1; mkdate 2020 1 1] false object
           (mk_ndarray (2%nat, 7%nat)
              [[Val (mkdate 2018 12 31); Val (mkdate 2019 1 1);
                PyNone; PyNone; PyNone; PyNone; PyNone];
               [PyNone; PyNone; Val (mkdate 2020 1 1);
                PyNone; PyNone; PyNone; PyNone]]) 0 1 (mkdate 2019 1 1)).
  - compute_done.
  - vm_compute. reflexivity.
  - reflexivity.
  - vm_compute. reflexivity.
Defined.
